(** * portless: the per-redirect reverse-proxy listener

    A shallow embedding of [packages/deamon/src/proxy.ts] (function
    [useReverseProxy] and its inner [proxyTarget]): the hostname tables built
    from the domain configuration, the wrappers installed on the response
    object ([writeHead], [write], [end]), the ACME challenge short-circuit, the
    transport error handler and the WebSocket upgrade handler.

    JavaScript strings are modelled by [string]; a JavaScript object used as a
    dictionary by [gmap string _]; a headers object by the list of its
    properties in insertion order; an optional property by [option]. *)

From Stdlib Require Import ZArith Ascii String DecimalString.
From stdpp Require Import gmap strings list.

Local Open Scope Z_scope.

(* [simpl] may unfold an append whose first argument starts with a constructor. *)
#[local] Arguments String.append !_ _ / : simpl nomatch.

(** ** String primitives of the host language *)

Module JS.

(** [s.startsWith(p)] *)
Fixpoint startsWith (p s : string) : bool :=
  match p with
  | EmptyString => true
  | String a p' =>
      match s with
      | EmptyString => false
      | String b s' => Ascii.eqb a b && startsWith p' s'
      end
  end.

(** [s.substr(n)]: the suffix of [s] from index [n] on. *)
Fixpoint substr (n : nat) (s : string) : string :=
  match n with
  | O => s
  | S k => match s with EmptyString => EmptyString | String _ s' => substr k s' end
  end.

(** [s.includes(p)] on strings: [p] occurs somewhere in [s]. *)
Fixpoint includes (p s : string) : bool :=
  startsWith p s ||
  match s with
  | EmptyString => false
  | String _ s' => includes p s'
  end.

(** [s.toLowerCase()], on the letters A to Z. *)
Definition lowerChar (c : ascii) : ascii :=
  let n := nat_of_ascii c in
  if (65 <=? n)%nat && (n <=? 90)%nat then ascii_of_nat (n + 32) else c.

Fixpoint toLowerCase (s : string) : string :=
  match s with
  | EmptyString => EmptyString
  | String c s' => String (lowerChar c) (toLowerCase s')
  end.

(** What a template literal or [String.prototype.replace] makes of a value
    that may be [undefined]. *)
Definition toString (v : option string) : string :=
  match v with
  | Some s => s
  | None => "undefined"
  end.

(** *** Patterns *)

(** Modelled from the spec: [escapeReg] of [@portless/util], defined in
    another package of the repository, is taken to quote every
    metacharacter, so that each hostname is an alternative that matches
    itself literally (the spec's alternation pattern).  Every pattern of the
    program is [new RegExp(`(${xs.join('|')})`, 'g')] with [xs] a list of
    escaped hostnames: an ordered alternation of literal strings; with no
    element at all the source text is [()], one empty alternative. *)
Definition alternatives (xs : list string) : list string :=
  match xs with
  | [] => [EmptyString]
  | _ => xs
  end.

(** The alternative chosen at the current position: the first, in order,
    that matches there. *)
Fixpoint first_match (alts : list string) (s : string) : option string :=
  match alts with
  | [] => None
  | a :: rest => if startsWith a s then Some a else first_match rest s
  end.

(** [s.replace(re, f)] for a global pattern [re] with alternatives [alts].
    [skip] counts the characters of [s] still covered by the last match
    (the distance to [lastIndex]).  A match of the empty string emits its
    replacement and then copies one character, as [lastIndex] is advanced
    by one. *)
Fixpoint replace_from (alts : list string) (f : string -> option string)
    (skip : nat) (s : string) : string :=
  match s with
  | EmptyString =>
      match skip, first_match alts EmptyString with
      | O, Some a => toString (f a)
      | _, _ => EmptyString
      end
  | String c s' =>
      match skip with
      | S k => replace_from alts f k s'
      | O =>
          match first_match alts s with
          | None => String c (replace_from alts f O s')
          | Some a =>
              toString (f a) +:+
              match String.length a with
              | O => String c (replace_from alts f O s')
              | S k => replace_from alts f k s'
              end
          end
      end
  end.

Definition replace (xs : list string) (f : string -> option string)
    (s : string) : string :=
  replace_from (alternatives xs) f O s.

(** The matches the same scan finds, in order: [s.match(re)]. *)
Fixpoint matches_from (alts : list string) (skip : nat) (s : string)
    : list string :=
  match s with
  | EmptyString =>
      match skip, first_match alts EmptyString with
      | O, Some a => [a]
      | _, _ => []
      end
  | String c s' =>
      match skip with
      | S k => matches_from alts k s'
      | O =>
          match first_match alts s with
          | None => matches_from alts O s'
          | Some a =>
              a :: match String.length a with
                   | O => matches_from alts O s'
                   | S k => matches_from alts k s'
                   end
          end
      end
  end.

Definition matches (xs : list string) (s : string) : list string :=
  matches_from (alternatives xs) O s.

End JS.

(** ** Configuration ([@portless/config]) *)

Record DomainConfig := {
  targetUrl : string;
  publicUrl : option string
}.

Record ProxyRedirectConfig := {
  port : Z;
  target : string
}.

Record PortlessConfig := {
  domains : option (list DomainConfig);
  redirects : option (list ProxyRedirectConfig);
  targetProxy : option string
}.

Record ReverseProxyOptions := {
  publicKeyId : option string
}.

(** Truthiness of an optional string: present and not empty. *)
Definition truthy_string (v : option string) : bool :=
  match v with
  | Some EmptyString | None => false
  | Some _ => true
  end.

(** ** The hostname tables

    The six variables declared before [if (config.domains)]: the two
    dictionaries and, for each pattern, the list of alternatives it is
    compiled from. *)
Record DomainTable := {
  replaceMap : gmap string string;
  escapedUrls : list string;
  reverseReplaceMap : gmap string string;
  reverseEcapedUrls : list string
}.

Definition emptyTable : DomainTable :=
  {| replaceMap := ∅; escapedUrls := [];
     reverseReplaceMap := ∅; reverseEcapedUrls := [] |}.

Definition replaceFunc (t : DomainTable) (matched : string) : option string :=
  replaceMap t !! matched.

Definition reverseReplaceFunc (t : DomainTable) (matched : string) : option string :=
  reverseReplaceMap t !! matched.

(** [text.replace(replaceReg, replaceFunc)] *)
Definition forward (t : DomainTable) (text : string) : string :=
  JS.replace (escapedUrls t) (replaceFunc t) text.

(** [text.replace(reverseReplaceReg, reverseReplaceFunc)] *)
Definition backward (t : DomainTable) (text : string) : string :=
  JS.replace (reverseEcapedUrls t) (reverseReplaceFunc t) text.

(** ** Requests and responses ([http]) *)

(** A header value as [getHeader] may return it. *)
Inductive hval :=
| HStr (s : string)
| HNum (n : Z)
| HArr (l : list string).

Definition truthy (v : option hval) : bool :=
  match v with
  | None | Some (HStr EmptyString) | Some (HNum 0) => false
  | Some _ => true
  end.

Definition Buffer := list Byte.byte.

Inductive chunk :=
| Text (s : string)
| Bytes (b : Buffer).

(** *** Headers objects

    The object given to [writeHead]: its properties in insertion order, each
    name once.  Property names are compared as they are spelled. *)
Abbreviation object := (list (string * hval)).

(** [o[name]] *)
Fixpoint prop (o : object) (name : string) : option hval :=
  match o with
  | [] => None
  | (n, v) :: o' => if String.eqb n name then Some v else prop o' name
  end.

(** [delete o[name]] *)
Definition deleteProp (name : string) (o : object) : object :=
  filter (λ p, p.1 ≠ name) o.

(** [o[name] = v]: in place when the property exists, at the end
    otherwise. *)
Definition assignProp (name : string) (v : hval) (o : object) : object :=
  match prop o name with
  | Some _ => (λ p, if String.eqb p.1 name then (name, v) else p) <$> o
  | None => o ++ [(name, v)]
  end.

(** *** The response

    The header fields of a response are kept under their lower-cased names:
    [setHeader], [getHeader] and [removeHeader] compare names without
    regard to case, and so does the client.  Of what is sent the model keeps
    the status line, the fields the program gave and the chunks of the body;
    the fields [http] adds of its own ([Date], [Connection],
    [Transfer-Encoding]) are left out.  Status codes, names and values are
    taken to be valid ones, and a response is not written to after it was
    ended: the checks [http] makes of these are not modelled. *)

(** What was sent when the headers were flushed: the status line and, for
    each field name in lower case, the value of the last line sent under
    it. *)
Record Head := {
  code : Z;
  reason : option string;
  fields : gmap string hval
}.

Record ServerResponse := {
  statusCode : Z;
  headers : gmap string hval;
  flushed : option Head;
  body : list chunk;
  finished : bool
}.

(** A response nothing has been done to yet. *)
Definition freshResponse : ServerResponse :=
  {| statusCode := 200; headers := ∅; flushed := None;
     body := []; finished := false |}.

(** The status line the client sees: the one of [writeHead] when it was
    called, [statusCode] otherwise. *)
Definition statusSent (r : ServerResponse) : Z :=
  match flushed r with
  | Some h => code h
  | None => statusCode r
  end.

Inductive origin_header :=
| Scalar (s : string)
| Many (l : list string).

Record IncomingMessage := {
  url : option string;
  host : option string;
  origin : option origin_header
}.

(** The argument vector of [writeHead(statusCode[, statusMessage][, headers])]. *)
Inductive writeHead_args :=
| Args1 (status : Z)
| Args2 (status : Z) (second : string + object)
| Args3 (status : Z) (statusMessage : option string) (hs : option object).

Definition status_of (args : writeHead_args) : Z :=
  match args with
  | Args1 c | Args2 c _ | Args3 c _ _ => c
  end.

Definition message_of (args : writeHead_args) : option string :=
  match args with
  | Args2 _ (inl m) => Some m
  | Args3 _ m _ => m
  | _ => None
  end.

(** [(args.length > 2) ? args[2] : args[1]], as far as it is an object.  With
    two arguments of which the second is the status message, the selected value
    is a string: none of the properties read below is defined on it and
    nothing is written to it, as when no headers are given. *)
Definition headers_of (args : writeHead_args) : option object :=
  match args with
  | Args2 _ (inr h) => Some h
  | Args3 _ _ h => h
  | _ => None
  end.

(** The same argument vector after the headers object was changed in place. *)
Definition with_headers (args : writeHead_args) (h : option object)
    : writeHead_args :=
  match args, h with
  | Args2 c (inr _), Some h' => Args2 c (inr h')
  | Args3 c m (Some _), Some h' => Args3 c m (Some h')
  | _, _ => args
  end.

(** *** The methods of [http.ServerResponse] that take no part in the
    dispatch on the object

    Once the headers were sent, [setHeader], [removeHeader] and [writeHead]
    throw [ERR_HTTP_HEADERS_SENT]: the result is [None]. *)

(** [res.headersSent] *)
Definition headersSent (r : ServerResponse) : bool :=
  match flushed r with
  | Some _ => true
  | None => false
  end.

(** [res.getHeader(name)] *)
Definition getHeader (r : ServerResponse) (name : string) : option hval :=
  headers r !! JS.toLowerCase name.

(** [res.setHeader(name, v)] *)
Definition setHeader (r : ServerResponse) (name : string) (v : hval)
    : option ServerResponse :=
  if headersSent r then None
  else Some {| statusCode := statusCode r;
               headers := <[JS.toLowerCase name := v]> (headers r);
               flushed := flushed r; body := body r;
               finished := finished r |}.

(** [res.removeHeader(name)] *)
Definition removeHeader (r : ServerResponse) (name : string)
    : option ServerResponse :=
  if headersSent r then None
  else Some {| statusCode := statusCode r;
               headers := delete (JS.toLowerCase name) (headers r);
               flushed := flushed r; body := body r;
               finished := finished r |}.

(** The properties of a headers object set one after the other over the
    headers [h], as [writeHead] does with [setHeader]. *)
Definition laidOver (o : object) (h : gmap string hval) : gmap string hval :=
  foldl (λ m p, <[JS.toLowerCase p.1 := p.2]> m) h o.

(** The flush itself: the status line and the fields in effect go out. *)
Definition storeHeader (r : ServerResponse) (args : writeHead_args)
    : ServerResponse :=
  let all := laidOver (default [] (headers_of args)) (headers r) in
  {| statusCode := status_of args; headers := all;
     flushed := Some {| code := status_of args; reason := message_of args;
                        fields := all |};
     body := body r; finished := finished r |}.

(** [ServerResponse.prototype.writeHead] *)
Definition native_writeHead (r : ServerResponse) (args : writeHead_args)
    : option ServerResponse :=
  if headersSent r then None else Some (storeHeader r args).

(** ** Sample collaborators, for the worked scenarios *)

(** The part of a URL after its scheme separator [://], if it has one. *)
Fixpoint afterScheme (s : string) : option string :=
  match s with
  | EmptyString => None
  | String c s' =>
      if JS.startsWith "://" s then Some (JS.substr 3 s) else afterScheme s'
  end.

(** The part of a string before its first [/]. *)
Fixpoint untilSlash (s : string) : string :=
  match s with
  | EmptyString => EmptyString
  | String c s' => if Ascii.eqb c "/" then EmptyString else String c (untilSlash s')
  end.

(** Modelled from the spec: [getDomain] of [@portless/util], defined in another
    package of the repository; the spec only says that it yields the hostname
    of a URL.  This instance drops the scheme and everything from the first
    [/] after it.  The general results below hold for any [getDomain]. *)
Definition hostnameOf (u : string) : string :=
  untilSlash (default u (afterScheme u)).

(** A stand-in for the error template: the message, then the stack. *)
Definition plainTemplate (errorMessage : string) (errorStack : option string)
    : string :=
  errorMessage +:+ JS.toString errorStack.

Definition acmeChallengePath : string := "/.well-known/acme-challenge/".

(** The content types whose bodies are rewritten. *)
Definition rewrittenTypes : list string :=
  ["text/html"; "text/css"; "application/javascript"].

(** [v.includes(type)]: substring search on a string, element search on an
    array; a number has no such method and the call throws. *)
Definition hval_includes (type : string) (v : hval) : option bool :=
  match v with
  | HStr s => Some (JS.includes type s)
  | HArr l => Some (bool_decide (type ∈ l))
  | HNum _ => None
  end.

(** [types.some(type => v.includes(type))] *)
Fixpoint some_includes (types : list string) (v : hval) : option bool :=
  match types with
  | [] => Some false
  | ty :: rest =>
      match hval_includes ty v with
      | None => None
      | Some true => Some true
      | Some false => some_includes rest v
      end
  end.

(** [res.getHeader('content-type') || (headers ? headers['content-type'] : undefined)] *)
Definition contentType (r : ServerResponse) (hs : option object)
    : option hval :=
  if truthy (getHeader r "content-type") then getHeader r "content-type"
  else hs ≫= (λ h, prop h "content-type").

(** The truth value of [contentType && types.some(...)]; [None] when the
    evaluation throws. *)
Definition decideRewrite (r : ServerResponse) (hs : option object)
    : option bool :=
  let ct := contentType r hs in
  if truthy ct then from_option (some_includes rewrittenTypes) (Some false) ct
  else Some false.

(** The response object as the transport sees it: as created, or with
    [writeHead], [write] and [end] replaced and [shouldRewrite] captured. *)
Inductive sink :=
| Native (r : ServerResponse)
| Gated (t : DomainTable) (shouldRewrite : bool) (r : ServerResponse).

Definition response (s : sink) : ServerResponse :=
  match s with
  | Native r | Gated _ _ r => r
  end.

(** What the request listener did: answered the request itself, handed it
    to the transport, or threw. *)
Inductive outcome :=
| Responded (r : ServerResponse)
| ProxyWeb (req : IncomingMessage) (s : sink)
| Threw.

Record Error := {
  message : string;
  stack : option string
}.

(** What the transport, or the error handler, may call on the response. *)
Inductive call :=
| SetHeader (name : string) (v : hval)
| WriteHead (args : writeHead_args)
| Write (data : chunk)
| End (data : option chunk).

Section Listener.

(** [getDomain] of [@portless/util]. *)
Variable getDomain : string -> string.
(** [Buffer.prototype.toString]. *)
Variable bufferToString : Buffer -> string.
(** [renderTemplate] of [@portless/template], applied to the error
    template, as a function of [errorMessage] and [errorStack]. *)
Variable renderTemplate : string -> option string -> string.

(** The body of [for (const domainConfig of config.domains)]. *)
Definition register (t : DomainTable) (domainConfig : DomainConfig)
    : DomainTable :=
  let targetDomain := getDomain (targetUrl domainConfig) in
  match publicUrl domainConfig with
  | Some u =>
      if truthy_string (Some u) then
        let publicDomain := getDomain u in
        {| replaceMap := <[targetDomain := publicDomain]> (replaceMap t);
           escapedUrls := escapedUrls t ++ [targetDomain];
           reverseReplaceMap :=
             <[publicDomain := targetDomain]> (reverseReplaceMap t);
           reverseEcapedUrls := reverseEcapedUrls t ++ [publicDomain] |}
      else t
  | None => t
  end.

Definition build (ds : list DomainConfig) : DomainTable :=
  foldl register emptyTable ds.

(** [replaceReg] and its companions: assigned only under
    [if (config.domains)]. *)
Definition tables (config : PortlessConfig) : option DomainTable :=
  build <$> domains config.

(** *** The wrappers of lines 106-162 *)

(** [if (shouldRewrite) { res.removeHeader('content-length'); if (headers)
    delete headers['content-length'] }]: on the response, and on the
    headers object of the call. *)
Definition removeLength (shouldRewrite : bool) (r : ServerResponse)
    : option ServerResponse :=
  if shouldRewrite then removeHeader r "content-length" else Some r.

Definition deleteLength (shouldRewrite : bool) (hs : option object)
    : option object :=
  if shouldRewrite then deleteProp "content-length" <$> hs else hs.

(** [const corsHeader = res.getHeader('access-control-allow-origin');
    if (corsHeader && typeof corsHeader === 'string') res.setHeader(...)] *)
Definition replaceCors (t : DomainTable) (r : ServerResponse)
    : option ServerResponse :=
  match getHeader r "access-control-allow-origin" with
  | Some (HStr corsHeader) =>
      if truthy (Some (HStr corsHeader)) then
        setHeader r "access-control-allow-origin"
          (HStr (forward t corsHeader))
      else Some r
  | _ => Some r
  end.

(** [if (headers && headers['access-control-allow-origin']) headers[...] =
    headers[...].replace(replaceReg, replaceFunc)]; a truthy value that is
    not a string has no [replace] method and the call throws. *)
Definition replaceCorsIn (t : DomainTable) (hs : option object)
    : option (option object) :=
  match hs with
  | None => Some None
  | Some h =>
      if truthy (prop h "access-control-allow-origin") then
        match prop h "access-control-allow-origin" with
        | Some (HStr v) =>
            Some (Some (assignProp "access-control-allow-origin"
                          (HStr (forward t v)) h))
        | _ => None
        end
      else Some (Some h)
  end.

(** [res.writeHead = (...args) => ...]: the new value of [shouldRewrite]
    and the response after [_writeHead(...args)]; [None] when a statement
    throws. *)
Definition writeHead_wrapper (t : DomainTable) (r : ServerResponse)
    (args : writeHead_args) : option (bool * ServerResponse) :=
  let hs := headers_of args in
  shouldRewrite ← decideRewrite r hs;
  r1 ← removeLength shouldRewrite r;
  let hs1 := deleteLength shouldRewrite hs in
  r2 ← replaceCors t r1;
  hs2 ← replaceCorsIn t hs1;
  r3 ← native_writeHead r2 (with_headers args hs2);
  Some (shouldRewrite, r3).

(** *** Dispatch on the response object

    [res.writeHead] as it is found on the object: the native method, or the
    wrapper once it is installed. *)
Definition writeHead (s : sink) (args : writeHead_args) : option sink :=
  match s with
  | Native r => Native <$> native_writeHead r args
  | Gated t _ r =>
      '(shouldRewrite, r') ← writeHead_wrapper t r args;
      Some (Gated t shouldRewrite r')
  end.

(** [_implicitHeader]: when the headers were not sent yet,
    [this.writeHead(this.statusCode)], through the object. *)
Definition implicitHeader (s : sink) : option sink :=
  if headersSent (response s) then Some s
  else writeHead s (Args1 (statusCode (response s))).

(** The same object with its native state changed. *)
Definition withResponse (s : sink) (f : ServerResponse → ServerResponse)
    : sink :=
  match s with
  | Native r => Native (f r)
  | Gated t shouldRewrite r => Gated t shouldRewrite (f r)
  end.

(** [OutgoingMessage.prototype.write]: the headers are flushed first if need
    be, then the chunk goes out. *)
Definition native_write (s : sink) (data : chunk) : option sink :=
  s' ← implicitHeader s;
  Some (withResponse s'
          (λ r, {| statusCode := statusCode r; headers := headers r;
                   flushed := flushed r; body := body r ++ [data];
                   finished := finished r |})).

(** [OutgoingMessage.prototype.end]: likewise, with the chunk if there is
    one, and the response is finished. *)
Definition native_end (s : sink) (data : option chunk) : option sink :=
  s' ← implicitHeader s;
  Some (withResponse s'
          (λ r, {| statusCode := statusCode r; headers := headers r;
                   flushed := flushed r; body := body r ++ option_list data;
                   finished := true |})).

(** [res.write = (data) => ...]; [_write] is the native method bound to the
    same object. *)
Definition write_wrapper (t : DomainTable) (shouldRewrite : bool)
    (r : ServerResponse) (data : chunk) : option sink :=
  if shouldRewrite then
    let text := match data with
                | Bytes b => bufferToString b
                | Text s => s
                end in
    let newText := forward t text in
    native_write (Gated t shouldRewrite r) (Text newText)
  else native_write (Gated t shouldRewrite r) data.

(** [res.end = () => { _end() }] *)
Definition end_wrapper (t : DomainTable) (shouldRewrite : bool)
    (r : ServerResponse) : option sink :=
  native_end (Gated t shouldRewrite r) None.

(** A method call on the response object. *)
Definition invoke (s : sink) (c : call) : option sink :=
  match s, c with
  | Native r, SetHeader k v => Native <$> setHeader r k v
  | Gated t sr r, SetHeader k v => Gated t sr <$> setHeader r k v
  | _, WriteHead args => writeHead s args
  | Native _, Write data => native_write s data
  | Native _, End data => native_end s data
  | Gated t sr r, Write data => write_wrapper t sr r data
  | Gated t sr r, End _ => end_wrapper t sr r
  end.

(** A sequence of calls, stopped by the first that throws. *)
Fixpoint run (s : sink) (calls : list call) : option sink :=
  match calls with
  | [] => Some s
  | c :: rest => s' ← invoke s c; run s' rest
  end.

(** *** The request listener of [http.createServer] *)
Definition requestListener (options : ReverseProxyOptions)
    (tbl : option DomainTable) (req : IncomingMessage)
    (res : ServerResponse) : outcome :=
  let gate := match tbl with
              | Some t => Gated t false res
              | None => Native res
              end in
  if truthy_string (publicKeyId options) then
    match url req with
    | Some u =>
        if truthy_string (Some u) && JS.startsWith acmeChallengePath u then
          let id := JS.substr (String.length acmeChallengePath) u in
          match
            native_write (Native res)
              (Text (id +:+ "." +:+ JS.toString (publicKeyId options)))
            ≫= (λ s, native_end s None)
          with
          | Some s => Responded (response s)
          | None => Threw
          end
        else ProxyWeb req gate
    | None => ProxyWeb req gate
    end
  else ProxyWeb req gate.

(** *** [proxy.on('error', ...)] *)
Definition errorMessage (err : Error) : string :=
  if JS.startsWith "getaddrinfo ENOTFOUND" (message err) then
    "Can't find host <b>" +:+
    JS.substr (String.length "getaddrinfo ENOTFOUND" + 1) (message err) +:+
    "</b>"
  else message err.

Definition onError (err : Error) (s : sink) : option sink :=
  run s [ WriteHead (Args2 500
            (inr [("ContentType", HStr "text/html; charset=utf-8")]));
          End (Some (Text (renderTemplate (errorMessage err) (stack err)))) ].

(** *** [server.on('upgrade', ...)]

    Without a domain configuration both the pattern and the function are
    [undefined]; [replace] then looks for the text [undefined] and puts the
    same text in its place, which changes nothing. *)
Definition rewriteInbound (tbl : option DomainTable) (value : string) : string :=
  match tbl with
  | Some t => backward t value
  | None => value
  end.

Definition onUpgrade (tbl : option DomainTable) (req : IncomingMessage)
    : IncomingMessage :=
  {| url := url req;
     host := if truthy_string (host req)
             then rewriteInbound tbl <$> host req else host req;
     origin := match origin req with
               | Some (Many l) => Some (Many (rewriteInbound tbl <$> l))
               | Some (Scalar s) =>
                   if truthy_string (Some s)
                   then Some (Scalar (rewriteInbound tbl s))
                   else Some (Scalar s)
               | None => None
               end |}.

End Listener.

(** ** Vocabulary of the statements *)



(** [v] is the content type declared when the headers are sent: the field
    set on the response or, when none is set or it is falsy, the property
    [content-type], so spelled, of the headers object given to
    [writeHead]; a falsy value declares nothing. *)
Definition declaredType (r : ServerResponse) (hs : option object) (v : hval)
    : Prop :=
  truthy (Some v) = true
  ∧ (getHeader r "content-type" = Some v
     ∨ truthy (getHeader r "content-type") = false
       ∧ ∃ h, hs = Some h ∧ prop h "content-type" = Some v).

(** How many of the alternatives match at the start of [s]. *)
Definition matchesAt (alts : list string) (s : string) : nat :=
  length (filter (λ a, JS.startsWith a s = true) alts).

(** How many times an alternative occurs in [s], over all positions. *)
Fixpoint occurrences (alts : list string) (s : string) : nat :=
  (matchesAt alts s +
   match s with
   | EmptyString => 0
   | String _ s' => occurrences alts s'
   end)%nat.

(** The table [t] holds exactly the pairs [ps] of target and public
    hostname, in the order of registration; a hostname registered twice is
    looked up as some pair that names it. *)
Definition pairedBy (t : DomainTable) (ps : list (string * string)) : Prop :=
  escapedUrls t = ps.*1
  ∧ reverseEcapedUrls t = ps.*2
  ∧ (∀ h, h ∈ ps.*1 → ∃ p, replaceMap t !! h = Some p ∧ (h, p) ∈ ps)
  ∧ (∀ p, p ∈ ps.*2 → ∃ h, reverseReplaceMap t !! p = Some h ∧ (h, p) ∈ ps).

(** The header field [name], in lower case, as the client is sent it. *)
Definition sent (r : ServerResponse) (name : string) : option hval :=
  flushed r ≫= (λ h, fields h !! name).

(** The names, as they are spelled, of the properties of a headers object
    that name the field [name], case apart. *)
Definition spellings (o : object) (name : string) : list string :=
  (filter (λ p, JS.toLowerCase p.1 = name) o).*1.

(** *** Texts and the hostnames in them

    A text cut into pieces: hostnames, and what lies between them. *)
Inductive piece :=
| Gap (s : string)
| Host (h : string).

Definition text_of (p : piece) : string :=
  match p with
  | Gap s | Host s => s
  end.

(** The text the pieces make up. *)
Fixpoint joined (ps : list piece) : string :=
  match ps with
  | [] => ""
  | p :: ps' => text_of p +:+ joined ps'
  end.

(** The same text with every hostname piece replaced by its image. *)
Fixpoint substituted (image : string → string) (ps : list piece) : string :=
  match ps with
  | [] => ""
  | Gap s :: ps' => s +:+ substituted image ps'
  | Host h :: ps' => image h +:+ substituted image ps'
  end.

(** The hostnames of [hosts] that begin where [s] begins, in the order of
    [hosts]. *)
Definition beginsAt (hosts : list string) (s : string) : list string :=
  filter (λ a, JS.startsWith a s = true) hosts.

(** No hostname of [hosts] begins at a position of [g], when [after] follows
    it. *)
Fixpoint noneWithin (hosts : list string) (g after : string) : Prop :=
  match g with
  | EmptyString => True
  | String _ g' =>
      beginsAt hosts (g +:+ after) = [] ∧ noneWithin hosts g' after
  end.

(** The hostnames stand apart in the pieces: none begins between the
    hostname pieces, and each hostname piece is the first hostname of
    [hosts] to begin where it stands. *)
Fixpoint apart (hosts : list string) (ps : list piece) : Prop :=
  match ps with
  | [] => True
  | Gap g :: ps' => noneWithin hosts g (joined ps') ∧ apart hosts ps'
  | Host h :: ps' =>
      head (beginsAt hosts (h +:+ joined ps')) = Some h ∧ apart hosts ps'
  end.

(** The counterpart of a hostname in the pairs [ps] of target and public
    hostname: that of the last pair that names it. *)
Definition publicOf (ps : list (string * string)) (h : string) : string :=
  default "" (snd <$> last (filter (λ q, q.1 = h) ps)).

Definition targetOf (ps : list (string * string)) (p : string) : string :=
  default "" (fst <$> last (filter (λ q, q.2 = p) ps)).

(** ** Worked scenarios *)

Definition scenarioDomains : list DomainConfig :=
  [ {| targetUrl := "http://localhost:3000";
       publicUrl := Some "https://app.example" |} ].

Definition scenarioTable : DomainTable := build hostnameOf scenarioDomains.

Definition corsDomains : list DomainConfig :=
  [ {| targetUrl := "http://target.local";
       publicUrl := Some "https://public.example" |} ].

Definition corsTable : DomainTable := build hostnameOf corsDomains.

(** Two hostname pairs of which one target, and one public hostname, begins
    with the other. *)
Definition overlapDomains : list DomainConfig :=
  [ {| targetUrl := "http://localhost:3000";
       publicUrl := Some "https://app.example" |};
    {| targetUrl := "http://localhost:30001";
       publicUrl := Some "https://app.example.org" |} ].

Definition overlapTable : DomainTable := build hostnameOf overlapDomains.

(** A domain configuration that names a target but no public URL. *)
Definition unpublishedConfig : PortlessConfig :=
  {| domains := Some [ {| targetUrl := "http://localhost:3000";
                          publicUrl := None |} ];
     redirects := Some [ {| port := 8080; target := "http://localhost:3000" |} ];
     targetProxy := None |}.

Definition noKey : ReverseProxyOptions := {| publicKeyId := None |}.

Definition plainRequest : IncomingMessage :=
  {| url := Some "/"; host := Some "localhost:8080"; origin := None |}.

Definition htmlResponse : list call :=
  [ SetHeader "content-type" (HStr "text/html");
    SetHeader "content-length" (HNum 2);
    WriteHead (Args1 200);
    Write (Text "ab");
    End None ].

Definition refused : Error :=
  {| message := "connect ECONNREFUSED 127.0.0.1:3000";
     stack := Some "Error: connect ECONNREFUSED 127.0.0.1:3000" |}.

Definition notFound : Error :=
  {| message := "getaddrinfo ENOTFOUND app.local";
     stack := Some "Error: getaddrinfo ENOTFOUND app.local" |}.

(** A body written in one chunk and ended with another. *)
Definition pageInTwoParts : list call :=
  [ SetHeader "content-type" (HStr "text/html");
    WriteHead (Args1 200);
    Write (Text "<a href=http://localhost:3000/>");
    End (Some (Text "</a>")) ].

(** A response whose header is never written by a call of [writeHead]: the
    fields are set, then the body is written in two chunks. *)
Definition pageWithoutWriteHead : list call :=
  [ SetHeader "Content-Type" (HStr "text/html");
    SetHeader "Content-Length" (HNum 64);
    SetHeader "Access-Control-Allow-Origin" (HStr "http://localhost:3000");
    Write (Text "<a href=http://localhost:3000/a>");
    Write (Text "<a href=http://localhost:3000/b>");
    End None ].

(** [writeHead(200, headers)] on a wrapped response nothing was done to,
    then one chunk. *)
Definition pageWithHeaders (hs : object) : list call :=
  [ WriteHead (Args2 200 (inr hs));
    Write (Text "localhost:3000");
    End None ].

(** What is read off a response at the end of an exchange. *)
Definition observed (s : sink) : Z * list chunk * bool :=
  (statusSent (response s), body (response s), finished (response s)).

(** ** Further parts of the program *)

(** *** Announcing the public URL: the callback of [server.listen] *)

(** [config.domains ? config.domains.find(d => d.targetUrl === target) : undefined] *)
Definition findDomain (config : PortlessConfig) (tgt : string)
    : option DomainConfig :=
  domains config ≫= (λ ds, snd <$> list_find (λ d, targetUrl d = tgt) ds).

(** [`0.0.0.0:${port}`], the port being an integer. *)
Definition proxyUrl (p : Z) : string :=
  "0.0.0.0:" +:+ NilZero.string_of_int (Z.to_int p).

(** [if (domain && domain.publicUrl !== undefined)
    publicUrlCallbacks.forEach(cb => cb(proxyUrl, domain.publicUrl))]: the
    calls made, in order, each with the callback called and its two
    arguments. *)
Definition onListening {C : Type} (config : PortlessConfig)
    (redirect : ProxyRedirectConfig) (publicUrlCallbacks : list C)
    : list (C * string * string) :=
  match findDomain config (target redirect) with
  | Some domain =>
      match publicUrl domain with
      | Some u => (λ cb, (cb, proxyUrl (port redirect), u)) <$> publicUrlCallbacks
      | None => []
      end
  | None => []
  end.

(** *** Certificates: [setupGreenlock] of [packages/cli/src/greenlock.ts] *)

Record GreenlockOptions := {
  packageAgent : string;
  maintainerEmail : string;
  staging : option bool
}.

(** Truthiness of [options.staging]. *)
Definition isStaging (options : GreenlockOptions) : bool :=
  match staging options with
  | Some true => true
  | _ => false
  end.

Record Site := {
  subject : option string;
  altnames : list string
}.

(** [config.domains.filter(d => !!d.publicUrl).map(d => getDomain(d.publicUrl))];
    the filter leaves no element without a public URL. *)
Definition publicDomains (getDomain : string → string)
    (ds : list DomainConfig) : list string :=
  (λ d, getDomain (default "" (publicUrl d))) <$>
    filter (λ d, truthy_string (publicUrl d) = true) ds.

(** The site handed to [greenlock.add]: [{ subject: publicDomains[0],
    altnames: publicDomains }]; none when [setupGreenlock] returns early,
    for want of [config.greenlock] or of [config.domains]. *)
Definition requestedSite (getDomain : string → string)
    (options : option GreenlockOptions) (config : PortlessConfig)
    : option Site :=
  match options with
  | None => None
  | Some _ =>
      match domains config with
      | Some ds =>
          Some {| subject := head (publicDomains getDomain ds);
                  altnames := publicDomains getDomain ds |}
      | None => None
      end
  end.

(** [readAccountData]: [file n] is what the [n]-th look at the account file
    finds, [None] while the file does not exist.  The result is the data
    read and the number of times [wait(500)] was awaited before; [fuel]
    bounds the number of looks. *)
Fixpoint readAccountData {A : Type} (fuel : nat) (file : nat → option A)
    (attempt : nat) : option (A * nat) :=
  match fuel with
  | O => None
  | S k =>
      match file attempt with
      | Some data => Some (data, attempt)
      | None => readAccountData k file (S attempt)
      end
  end.

Inductive level := LError | LWarn | LInfo | LSuccess.

(** An argument of a [consola] call: a literal, a literal coloured by
    [chalk], the [details] object or one of its properties. *)
Inductive logArg :=
| Plain (s : string)
| Blue (s : string)
| Green (s : string)
| Details
| DetailsSubject
| DetailsAltnames
| DetailsAltname.

Inductive effect :=
| Consola (l : level) (args : list logArg)
| RestartNgrokTunnels.

(** The [notify] callback given to [Greenlock.create]; of [details] only
    [details.status] is inspected. *)
Definition notify (event : string) (status : option string) : list effect :=
  if String.eqb event "error" then [Consola LError [Details]]
  else if String.eqb event "warning" then [Consola LWarn [Details]]
  else if String.eqb event "certificate_order" then
    [Consola LInfo [Plain "Ordering certificate..."; DetailsSubject;
                    DetailsAltnames]]
  else if String.eqb event "challenge_select" then
    [Consola LInfo [Plain "Challenging"; DetailsAltname]]
  else if String.eqb event "challenge_status" then
    if bool_decide (status = Some "pending") then
      [Consola LInfo [Plain "Challenge pending"; DetailsAltname]]
    else if bool_decide (status = Some "valid") then
      [Consola LSuccess [Green "Challenge valid"; DetailsAltname]]
    else [Consola LInfo [Plain "Challenge status"; Details]]
  else if String.eqb event "certificate_status" then
    if bool_decide (status = Some "valid") then
      [Consola LSuccess [Green "Certificate valid"; DetailsSubject]]
    else [Consola LInfo [Plain "Challenge status"; Details]]
  else if String.eqb event "cert_issue" then
    [Consola LSuccess [Green "Certificate issued"; Details];
     RestartNgrokTunnels]
  else [Consola LInfo [Blue event; Details]].

(** *** The port file of the daemon: the callback of [server.listen] in
    [startServer] *)

(** [{ ...portData, liveVersion: portData.requestVersion, port }] as
    [writeJson] stores it: a property whose value is [undefined] is left out
    of the file.  [V] is the type of JSON values, [ofNumber] the number as
    one. *)
Definition livePortData {V : Type} (ofNumber : Z → V)
    (portData : gmap string V) (p : Z) : gmap string V :=
  <["port" := ofNumber p]>
    (match portData !! "requestVersion" with
     | Some v => <["liveVersion" := v]> portData
     | None => delete "liveVersion" portData
     end).

(** [if (portData) await fs.writeJson(portFile, ...)], [portData] being
    [null] when the file does not exist: the file afterwards. *)
Definition portFileAfterListen {V : Type} (ofNumber : Z → V)
    (portFile : option (gmap string V)) (p : Z) : option (gmap string V) :=
  (λ portData, livePortData ofNumber portData p) <$> portFile.

(** *** Vocabulary *)

(** The pairs of target and public hostname the loop over [config.domains]
    registers, in order. *)
Definition registered (getDomain : string → string)
    (ds : list DomainConfig) : list (string * string) :=
  omap (λ d, if truthy_string (publicUrl d)
             then (λ u, (getDomain (targetUrl d), getDomain u)) <$> publicUrl d
             else None) ds.

(** [s] with the text [undefined] before each character and at the end. *)
Fixpoint undefinedAround (s : string) : string :=
  "undefined" +:+
  match s with
  | EmptyString => EmptyString
  | String c s' => String c (undefinedAround s')
  end.

(** What [write] hands on for a chunk under a given decision. *)
Definition chunkSent (bufferToString : Buffer → string) (t : DomainTable)
    (shouldRewrite : bool) (data : chunk) : chunk :=
  if shouldRewrite then
    Text (forward t match data with
                    | Text s => s
                    | Bytes b => bufferToString b
                    end)
  else data.

(** A table with at least one hostname pair and no empty hostname. *)
Definition populated (t : DomainTable) : Prop :=
  escapedUrls t ≠ [] ∧ reverseEcapedUrls t ≠ []
  ∧ Forall (λ a, a ≠ "") (escapedUrls t)
  ∧ Forall (λ a, a ≠ "") (reverseEcapedUrls t).

(** * Properties *)

(** ** Strings *)

Lemma startsWith_app p s : JS.startsWith p (p +:+ s) = true.
Proof.
  induction p as [|a p IH]; simpl; [done|].
  by rewrite Ascii.eqb_refl, IH.
Qed.

Lemma startsWith_split p s :
  JS.startsWith p s = true → s = p +:+ JS.substr (String.length p) s.
Proof.
  revert s. induction p as [|a p IH]; intros s H; simpl in *; [done|].
  destruct s as [|b s]; [done|].
  apply andb_true_iff in H as [Hab Hp].
  apply Ascii.eqb_eq in Hab as ->. f_equal. by apply IH.
Qed.


Lemma append_assoc (a b c : string) : (a +:+ b) +:+ c = a +:+ b +:+ c.
Proof. induction a as [|x a IH]; simpl; [done|]. by rewrite IH. Qed.

Lemma append_nil_r (a : string) : a +:+ "" = a.
Proof. induction a as [|x a IH]; simpl; [done|]. by rewrite IH. Qed.

Lemma length_append (a b : string) :
  String.length (a +:+ b) = (String.length a + String.length b)%nat.
Proof. induction a as [|x a IH]; simpl; [done|]. by rewrite IH. Qed.



(** ** The challenge responder *)




(** ** The rewrite decision *)



(** The wrapper goes by the declared content type, if there is one. *)
Lemma declaredType_contentType r hs v :
  declaredType r hs v ↔ contentType r hs = Some v ∧ truthy (Some v) = true.
Proof.
  unfold declaredType, contentType. split.
  - intros [Ht [Hr|(Hr & h & -> & Hh)]]; (split; [|done]).
    + by rewrite Hr, Ht.
    + by rewrite Hr.
  - intros [Hc Ht]. split; [done|].
    destruct (truthy (getHeader r "content-type")) eqn:E; [by left|].
    right. split; [done|]. destruct hs as [h|]; [|done]. by exists h.
Qed.

Lemma decideRewrite_declared r hs v :
  declaredType r hs v →
  decideRewrite r hs = some_includes rewrittenTypes v.
Proof.
  intros [Hc Ht]%declaredType_contentType. unfold decideRewrite.
  by rewrite Hc, Ht.
Qed.


(** ** The [writeHead] wrapper, step by step *)

Lemma setHeader_Some r k v r' :
  setHeader r k v = Some r' →
  flushed r = None
  ∧ r' = {| statusCode := statusCode r;
            headers := <[JS.toLowerCase k := v]> (headers r);
            flushed := flushed r; body := body r; finished := finished r |}.
Proof.
  unfold setHeader, headersSent. destruct (flushed r); [done|].
  by intros [= <-].
Qed.

Lemma removeHeader_Some r k r' :
  removeHeader r k = Some r' →
  flushed r = None
  ∧ r' = {| statusCode := statusCode r;
            headers := delete (JS.toLowerCase k) (headers r);
            flushed := flushed r; body := body r; finished := finished r |}.
Proof.
  unfold removeHeader, headersSent. destruct (flushed r); [done|].
  by intros [= <-].
Qed.

Lemma native_writeHead_Some r args r' :
  native_writeHead r args = Some r' ↔
  flushed r = None ∧ r' = storeHeader r args.
Proof.
  unfold native_writeHead, headersSent. destruct (flushed r).
  - split; [done|by intros [? _]].
  - split; [by intros [= <-]|by intros [_ ->]].
Qed.

Lemma removeLength_flushed sr r r1 :
  removeLength sr r = Some r1 → flushed r1 = flushed r.
Proof.
  destruct sr; simpl; [|by intros [= <-]].
  by intros [_ ->]%removeHeader_Some.
Qed.

Lemma replaceCors_flushed t r r2 :
  replaceCors t r = Some r2 → flushed r2 = flushed r.
Proof.
  unfold replaceCors.
  destruct (getHeader r _) as [[c| |]|]; try (by intros [= <-]).
  destruct (truthy _); [|by intros [= <-]].
  by intros [_ ->]%setHeader_Some.
Qed.

Lemma writeHead_wrapper_inv t r args sr r' :
  writeHead_wrapper t r args = Some (sr, r') →
  flushed r = None
  ∧ decideRewrite r (headers_of args) = Some sr
  ∧ ∃ r1 r2 hs2,
      removeLength sr r = Some r1
      ∧ replaceCors t r1 = Some r2
      ∧ replaceCorsIn t (deleteLength sr (headers_of args)) = Some hs2
      ∧ r' = storeHeader r2 (with_headers args hs2).
Proof.
  unfold writeHead_wrapper. intros H.
  destruct (decideRewrite r (headers_of args)) as [sr0|]; [|done].
  cbn [mbind option_bind] in H.
  destruct (removeLength sr0 r) as [r1|] eqn:E1; [|done].
  cbn [mbind option_bind] in H.
  destruct (replaceCors t r1) as [r2|] eqn:E2; [|done].
  cbn [mbind option_bind] in H.
  destruct (replaceCorsIn t _) as [hs2|] eqn:E3; [|done].
  cbn [mbind option_bind] in H.
  destruct (native_writeHead r2 _) as [r3|] eqn:E4; [|done].
  cbn [mbind option_bind] in H. injection H as -> <-.
  apply native_writeHead_Some in E4 as [Hf ->].
  rewrite (replaceCors_flushed _ _ _ E2), (removeLength_flushed _ _ _ E1) in Hf.
  split; [done|]. split; [done|]. by eexists _, _, _.
Qed.




(** ** The substitution, position by position *)

Section Scan.

Local Open Scope nat_scope.

Variable alts : list string.
Variable f : string → option string.
Hypothesis alts_nonempty : Forall (λ a, a ≠ "") alts.

Lemma first_match_Some s a :
  JS.first_match alts s = Some a → a ∈ alts ∧ JS.startsWith a s = true.
Proof using Type.
  clear alts_nonempty. induction alts as [|b rest IH]; simpl; [done|].
  destruct (JS.startsWith b s) eqn:E.
  - intros [= ->]. split; [left|done].
  - intros H. destruct (IH H) as [? ?]. split; [by right|done].
Qed.

Lemma first_match_None s :
  JS.first_match alts s = None ↔ matchesAt alts s = 0.
Proof using Type.
  clear alts_nonempty. unfold matchesAt.
  induction alts as [|b rest IH]; simpl; [done|].
  rewrite filter_cons. destruct (JS.startsWith b s) eqn:E.
  - rewrite decide_True by done. simpl. split; discriminate.
  - rewrite decide_False by (by intros ?). exact IH.
Qed.

Lemma first_match_empty : JS.first_match alts "" = None.
Proof using alts_nonempty.
  revert alts_nonempty. generalize alts as l.
  induction 1 as [|a rest Ha _ IH]; simpl; [done|].
  destruct a; [done|]. exact IH.
Qed.

(** The three cases of the scan at a position where nothing is pending. *)
Lemma scan_cases text :
  text = ""
  ∨ (∃ c s', text = String c s' ∧ JS.first_match alts text = None)
  ∨ (∃ a rest, text = a +:+ rest ∧ JS.first_match alts text = Some a
               ∧ a ∈ alts ∧ a ≠ ""
               ∧ String.length rest < String.length text).
Proof using alts_nonempty.
  destruct text as [|c s']; [by left|right].
  destruct (JS.first_match alts (String c s')) as [a|] eqn:E.
  - right. destruct (first_match_Some _ _ E) as [Hin Hs].
    exists a, (JS.substr (String.length a) (String c s')).
    assert (a ≠ "") as Hne.
    { rewrite Forall_forall in alts_nonempty. by apply alts_nonempty. }
    split; [by apply startsWith_split|]. repeat split; try done.
    rewrite (startsWith_split _ _ Hs) at 2. rewrite length_append.
    destruct a; [done|]. simpl. lia.
  - left. by exists c, s'.
Qed.

Lemma replace_from_skip u rest :
  JS.replace_from alts f (String.length u) (u +:+ rest)
  = JS.replace_from alts f 0 rest.
Proof using Type.
  induction u as [|c u IH]; simpl; [|exact IH]. by destruct rest.
Qed.

Lemma matches_from_skip u rest :
  JS.matches_from alts (String.length u) (u +:+ rest)
  = JS.matches_from alts 0 rest.
Proof using Type.
  induction u as [|c u IH]; simpl; [|exact IH]. by destruct rest.
Qed.

Lemma replace_nil : JS.replace_from alts f 0 "" = "".
Proof using alts_nonempty. simpl. by rewrite first_match_empty. Qed.

Lemma replace_miss c s' :
  JS.first_match alts (String c s') = None →
  JS.replace_from alts f 0 (String c s')
  = String c (JS.replace_from alts f 0 s').
Proof using Type. intros H. cbn [JS.replace_from]. by rewrite H. Qed.

Lemma replace_hit a rest :
  JS.first_match alts (a +:+ rest) = Some a → a ≠ "" →
  JS.replace_from alts f 0 (a +:+ rest)
  = JS.toString (f a) +:+ JS.replace_from alts f 0 rest.
Proof using Type.
  intros H Hne. destruct a as [|x a]; [done|].
  change (String x a +:+ rest) with (String x (a +:+ rest)) in *.
  cbn [JS.replace_from]. rewrite H. cbn [String.length].
  by rewrite replace_from_skip.
Qed.

Lemma matches_nil : JS.matches_from alts 0 "" = [].
Proof using alts_nonempty. simpl. by rewrite first_match_empty. Qed.

Lemma matches_miss c s' :
  JS.first_match alts (String c s') = None →
  JS.matches_from alts 0 (String c s') = JS.matches_from alts 0 s'.
Proof using Type. intros H. cbn [JS.matches_from]. by rewrite H. Qed.

Lemma matches_hit a rest :
  JS.first_match alts (a +:+ rest) = Some a → a ≠ "" →
  JS.matches_from alts 0 (a +:+ rest) = a :: JS.matches_from alts 0 rest.
Proof using Type.
  intros H Hne. destruct a as [|x a]; [done|].
  change (String x a +:+ rest) with (String x (a +:+ rest)) in *.
  cbn [JS.matches_from]. rewrite H. cbn [String.length].
  by rewrite matches_from_skip.
Qed.

Lemma matchesAt_pos a s :
  a ∈ alts → JS.startsWith a s = true → 0 < matchesAt alts s.
Proof using Type.
  intros Hin Hs. unfold matchesAt.
  assert (a ∈ filter (λ a, JS.startsWith a s = true) alts) as H
    by (by apply list_elem_of_filter).
  destruct (filter _ alts); [by apply elem_of_nil in H|simpl; lia].
Qed.

Lemma occurrences_app u s :
  occurrences alts s ≤ occurrences alts (u +:+ s).
Proof using Type.
  induction u as [|c u IH]; [done|].
  change (String c u +:+ s) with (String c (u +:+ s)).
  cbn [occurrences]. lia.
Qed.

(** A text in which no alternative occurs is left as it is. *)
Lemma replace_untouched text :
  occurrences alts text = 0 → JS.replace_from alts f 0 text = text.
Proof using alts_nonempty.
  induction text as [|c s' IH]; intros H; [apply replace_nil|].
  cbn [occurrences] in H. rewrite replace_miss.
  - f_equal. apply IH. lia.
  - apply first_match_None. lia.
Qed.

(** An occurrence before which no match starts is replaced by what the
    function gives for it, and the text before it is kept. *)
Lemma replace_first_occurrence pre a post :
  (∀ u w, pre = u +:+ w → w ≠ "" →
          JS.first_match alts (w +:+ a +:+ post) = None) →
  JS.first_match alts (a +:+ post) = Some a → a ≠ "" →
  JS.replace_from alts f 0 (pre +:+ a +:+ post)
  = pre +:+ JS.toString (f a) +:+ JS.replace_from alts f 0 post.
Proof using Type.
  intros Hpre Ha Hne. induction pre as [|c pre IH];
    [by apply (replace_hit a post)|].
  change (String c pre +:+ ?X) with (String c (pre +:+ X)).
  rewrite replace_miss.
  - f_equal. apply IH. intros u w -> Hw. by apply (Hpre (String c u)).
  - by apply (Hpre "" (String c pre)).
Qed.

End Scan.

(** Among the images under [k] of a list, when exactly one satisfies [P], two
    elements whose images do are the same element. *)
Lemma filter_one_unique {A B} (k : A → B) (P : B → Prop)
    `{∀ b, Decision (P b)} (l : list A) (x y : A) :
  length (filter P (k <$> l)) = 1%nat →
  x ∈ l → y ∈ l → P (k x) → P (k y) → x = y.
Proof.
  induction l as [|z l IH]; intros Hlen Hx Hy Px Py;
    [by apply elem_of_nil in Hx|].
  rewrite fmap_cons, filter_cons in Hlen.
  destruct (decide (P (k z))) as [Pz|Pz].
  - assert (∀ e, e ∈ l → ¬ P (k e)) as Hno.
    { intros e He Pe. simpl in Hlen.
      assert (k e ∈ filter P (k <$> l)) as Hin.
      { apply list_elem_of_filter. split; [done|].
        apply list_elem_of_fmap. by exists e. }
      destruct (filter P (k <$> l)); [by apply elem_of_nil in Hin|done]. }
    apply elem_of_cons in Hx as [->|Hx]; [|by destruct (Hno x)].
    apply elem_of_cons in Hy as [->|Hy]; [done|by destruct (Hno y)].
  - apply elem_of_cons in Hx as [->|Hx]; [done|].
    apply elem_of_cons in Hy as [->|Hy]; [done|]. by apply IH.
Qed.

(** ** The tables hold what was registered *)

Lemma pairedBy_empty : pairedBy emptyTable [].
Proof.
  repeat split; simpl; intros ? H; by apply elem_of_nil in H.
Qed.

Lemma pairedBy_register getDomain t ps d :
  pairedBy t ps →
  ∃ ps', pairedBy (register getDomain t d) ps'.
Proof.
  intros (Hf & Hb & Hfm & Hbm). unfold register.
  destruct (publicUrl d) as [u|]; [|by exists ps].
  destruct (truthy_string (Some u)); [|by exists ps].
  set (h := getDomain (targetUrl d)). set (p := getDomain u).
  exists (ps ++ [(h, p)]). repeat split; simpl.
  - by rewrite Hf, fmap_app.
  - by rewrite Hb, fmap_app.
  - intros h' Hin. destruct (decide (h = h')) as [<-|Hne].
    + exists p. rewrite lookup_insert_eq. split; [done|].
      apply elem_of_app. right. by left.
    + rewrite lookup_insert_ne by done.
      rewrite fmap_app in Hin. apply elem_of_app in Hin as [Hin|Hin].
      * destruct (Hfm h' Hin) as [p' [? ?]]. exists p'. split; [done|].
        apply elem_of_app. by left.
      * simpl in Hin. apply list_elem_of_singleton in Hin. congruence.
  - intros p' Hin. destruct (decide (p = p')) as [<-|Hne].
    + exists h. rewrite lookup_insert_eq. split; [done|].
      apply elem_of_app. right. by left.
    + rewrite lookup_insert_ne by done.
      rewrite fmap_app in Hin. apply elem_of_app in Hin as [Hin|Hin].
      * destruct (Hbm p' Hin) as [h' [? ?]]. exists h'. split; [done|].
        apply elem_of_app. by left.
      * simpl in Hin. apply list_elem_of_singleton in Hin. congruence.
Qed.

Lemma pairedBy_build getDomain ds : ∃ ps, pairedBy (build getDomain ds) ps.
Proof.
  unfold build.
  assert (∀ t, (∃ ps, pairedBy t ps) →
               ∃ ps, pairedBy (foldl (register getDomain) t ds) ps) as H.
  { induction ds as [|d ds IH]; intros t Ht; simpl; [done|].
    apply IH. destruct Ht as [ps Hps]. by eapply pairedBy_register. }
  apply H. exists []. apply pairedBy_empty.
Qed.

(** ** Forward, then backward *)

Section RoundTrip.

Local Open Scope nat_scope.

Variable t : DomainTable.
Variable ps : list (string * string).
Hypothesis paired : pairedBy t ps.
Hypothesis targets_nonempty : Forall (λ a, a ≠ "") (escapedUrls t).
Hypothesis publics_nonempty : Forall (λ a, a ≠ "") (reverseEcapedUrls t).

Local Abbreviation fwd := (JS.replace_from (escapedUrls t) (replaceFunc t) 0).
Local Abbreviation bwd :=
  (JS.replace_from (reverseEcapedUrls t) (reverseReplaceFunc t) 0).
Local Abbreviation found := (JS.matches_from (escapedUrls t) 0).

(** What a match of the forward scan is replaced by. *)
Lemma forward_image a :
  a ∈ escapedUrls t →
  ∃ p, replaceFunc t a = Some p ∧ (a, p) ∈ ps
       ∧ p ∈ reverseEcapedUrls t ∧ p ≠ "".
Proof using paired publics_nonempty.
  destruct paired as (Hf & Hb & Hfm & _). intros Hin.
  rewrite Hf in Hin. destruct (Hfm a Hin) as [p [Hp Hps]].
  exists p. split; [done|]. split; [done|].
  assert (p ∈ reverseEcapedUrls t) as Hpin.
  { rewrite Hb. apply list_elem_of_fmap. by exists (a, p). }
  split; [done|]. rewrite Forall_forall in publics_nonempty.
  by apply publics_nonempty.
Qed.

(** Every substitution leaves an occurrence of a public hostname. *)
Lemma substitutions_leave_occurrences n text :
  String.length text < n →
  length (found text) ≤ occurrences (reverseEcapedUrls t) (fwd text).
Proof using paired targets_nonempty publics_nonempty.
  revert text. induction n as [|n IH]; intros text Hn; [lia|].
  destruct (scan_cases _ targets_nonempty text)
    as [->|[(c & s' & -> & Hm)|(a & rest & -> & Hm & Hin & Hne & Hlt)]].
  - rewrite matches_nil by done. simpl. lia.
  - rewrite matches_miss, replace_miss by done.
    cbn [occurrences]. simpl in Hn.
    specialize (IH s' ltac:(lia)). simpl in IH. lia.
  - rewrite matches_hit, replace_hit by done.
    destruct (forward_image a Hin) as (p & -> & _ & Hpin & Hpne).
    cbn [JS.toString length].
    specialize (IH rest ltac:(lia)). cbv beta in IH.
    destruct p as [|x p]; [done|].
    change (String x p +:+ ?X) with (String x (p +:+ X)).
    cbn [occurrences].
    pose proof (matchesAt_pos (reverseEcapedUrls t) (String x p)
                  (String x (p +:+ JS.replace_from (escapedUrls t)
                                     (replaceFunc t) 0 rest)) Hpin
                  (startsWith_app (String x p) _)) as Hpos.
    pose proof (occurrences_app (reverseEcapedUrls t) p
                  (JS.replace_from (escapedUrls t) (replaceFunc t) 0 rest)).
    lia.
Qed.

(** When the public hostnames occur in the rewritten text as often as
    substitutions were made, the backward scan undoes the forward one. *)
Lemma backward_undoes_forward n text :
  String.length text < n →
  occurrences (reverseEcapedUrls t) (fwd text) = length (found text) →
  bwd (fwd text) = text.
Proof using paired targets_nonempty publics_nonempty.
  revert text. induction n as [|n IH]; intros text Hn; [lia|].
  destruct (scan_cases _ targets_nonempty text)
    as [->|[(c & s' & -> & Hm)|(a & rest & -> & Hm & Hin & Hne & Hlt)]].
  - intros _. rewrite replace_nil by done. by rewrite replace_nil.
  - rewrite matches_miss, replace_miss by done.
    cbn [occurrences]. intros Hocc. simpl in Hn.
    pose proof (substitutions_leave_occurrences (S (String.length s')) s'
                  ltac:(lia)) as Hle. cbv beta in Hle.
    rewrite replace_miss.
    + f_equal. apply IH; [lia|]. cbv beta. lia.
    + apply first_match_None. lia.
  - rewrite matches_hit, replace_hit by done.
    destruct (forward_image a Hin) as (p & -> & Hps & Hpin & Hpne).
    cbn [JS.toString length]. intros Hocc.
    set (X := JS.replace_from (escapedUrls t) (replaceFunc t) 0 rest) in *.
    pose proof (substitutions_leave_occurrences (S (String.length rest))
                  rest ltac:(lia)) as Hle. cbv beta in Hle. fold X in Hle.
    pose proof (matchesAt_pos (reverseEcapedUrls t) p (p +:+ X) Hpin
                  (startsWith_app p X)) as Hpos.
    assert (occurrences (reverseEcapedUrls t) (p +:+ X)
            = matchesAt (reverseEcapedUrls t) (p +:+ X)
              + occurrences (reverseEcapedUrls t)
                  (JS.substr 1 (p +:+ X))) as Hsplit.
    { destruct p as [|x p]; [done|]. reflexivity. }
    assert (occurrences (reverseEcapedUrls t) X
            ≤ occurrences (reverseEcapedUrls t) (JS.substr 1 (p +:+ X)))
      as Htail.
    { destruct p as [|x p]; [done|]. apply occurrences_app. }
    assert (matchesAt (reverseEcapedUrls t) (p +:+ X) = 1) as Hone by lia.
    assert (occurrences (reverseEcapedUrls t) X
            = length (JS.matches_from (escapedUrls t) 0 rest)) as Hrest
      by lia.
    destruct (JS.first_match (reverseEcapedUrls t) (p +:+ X)) as [b|] eqn:Eb;
      [|apply first_match_None in Eb; lia].
    destruct (first_match_Some _ _ _ Eb) as [Hbin Hbs].
    assert (b = p) as ->.
    { unfold matchesAt in Hone. rewrite <- (list_fmap_id (reverseEcapedUrls t))
        in Hone.
      by eapply (filter_one_unique id _ (reverseEcapedUrls t));
        [exact Hone|..|apply startsWith_app]. }
    rewrite replace_hit by done.
    destruct paired as (_ & Hb & _ & Hbm).
    rewrite Hb in Hpin. destruct (Hbm p Hpin) as (h & Hh & Hhps).
    unfold reverseReplaceFunc at 1. rewrite Hh. cbn [JS.toString].
    assert ((h, p) = (a, p)) as [= ->].
    { unfold matchesAt in Hone. rewrite Hb in Hone.
      eapply (filter_one_unique snd _ ps); [exact Hone|done|done|..];
        apply startsWith_app. }
    f_equal. apply IH; [lia|]. cbv beta. fold X. lia.
Qed.

End RoundTrip.

(** C6, as the code has it.  For tables built from any domain configuration
    with at least one public hostname and no empty hostname: forward
    substitution followed by backward substitution gives the text back
    whenever the public hostnames occur in the rewritten text exactly as often
    as substitutions were made, that is, only where the forward substitution
    put them. *)
Theorem round_trip_on_fresh_text (getDomain : string → string)
    (ds : list DomainConfig) (text : string) :
  let t := build getDomain ds in
  escapedUrls t ≠ [] →
  Forall (λ a, a ≠ "") (escapedUrls t) →
  Forall (λ a, a ≠ "") (reverseEcapedUrls t) →
  occurrences (reverseEcapedUrls t) (forward t text)
  = length (JS.matches (escapedUrls t) text) →
  backward t (forward t text) = text.
Proof.
  intros t Hne Hts Hps Hocc.
  destruct (pairedBy_build getDomain ds) as [ps Hpaired]. fold t in Hpaired.
  assert (reverseEcapedUrls t ≠ []) as Hne'.
  { destruct Hpaired as (Hf & Hb & _). rewrite Hf in Hne. rewrite Hb.
    by destruct ps. }
  unfold backward, forward, JS.replace, JS.matches in *.
  assert (∀ xs : list string, xs ≠ [] → JS.alternatives xs = xs) as Halt
    by (by intros [|? ?]).
  rewrite !Halt in * by done.
  by eapply (backward_undoes_forward t ps Hpaired Hts Hps
               (S (String.length text))); [lia|].
Qed.

Lemma round_trip_on_fresh_text_witness :
  backward scenarioTable (forward scenarioTable "href=http://localhost:3000/x")
  = "href=http://localhost:3000/x".
Proof.
  apply (round_trip_on_fresh_text hostnameOf scenarioDomains
           "href=http://localhost:3000/x").
  - discriminate.
  - repeat constructor; discriminate.
  - repeat constructor; discriminate.
  - reflexivity.
Defined.

(** C6, as stated, fails: a text that already holds the public hostname is
    left alone by the forward substitution and changed by the backward one. *)
Lemma round_trip_fails_on_public_host :
  replaceMap scenarioTable !! "localhost:3000" = Some "app.example"
  ∧ forward scenarioTable "http://app.example/" = "http://app.example/"
  ∧ backward scenarioTable (forward scenarioTable "http://app.example/")
    = "http://localhost:3000/"
  ∧ ¬ (∀ text, backward scenarioTable (forward scenarioTable text) = text).
Proof.
  repeat split; try reflexivity.
  intros H. specialize (H "http://app.example/"). discriminate H.
Qed.

(** * Further properties *)

(** ** What the tables hold *)

Lemma build_snoc getDomain ds d :
  build getDomain (ds ++ [d]) = register getDomain (build getDomain ds) d.
Proof. unfold build. by rewrite foldl_app. Qed.

Lemma registered_snoc getDomain ds d :
  registered getDomain (ds ++ [d])
  = registered getDomain ds ++
    (if truthy_string (publicUrl d)
     then option_list ((λ u, (getDomain (targetUrl d), getDomain u))
                         <$> publicUrl d)
     else []).
Proof.
  unfold registered. rewrite omap_app. f_equal. simpl.
  destruct (truthy_string (publicUrl d)); [|done].
  by destruct (publicUrl d).
Qed.

Lemma alternatives_nonempty xs : xs ≠ [] → JS.alternatives xs = xs.
Proof. by destruct xs. Qed.

(** What the loop over [config.domains] leaves in the tables. *)
Lemma build_registered (getDomain : string → string)
    (ds : list DomainConfig) :
  let t := build getDomain ds in
  let ps := registered getDomain ds in
  escapedUrls t = ps.*1
  ∧ reverseEcapedUrls t = ps.*2
  ∧ (∀ h, replaceMap t !! h = snd <$> last (filter (λ q, q.1 = h) ps))
  ∧ (∀ p, reverseReplaceMap t !! p = fst <$> last (filter (λ q, q.2 = p) ps)).
Proof.
  induction ds as [|d ds IH] using rev_ind.
  - repeat split; intros; simpl; apply lookup_empty.
  - cbv zeta in *. rewrite build_snoc, registered_snoc.
    destruct IH as (Hf & Hb & Hfm & Hbm). unfold register.
    destruct (publicUrl d) as [[|c u]|] eqn:Eu; simpl;
      [by rewrite app_nil_r| |by rewrite app_nil_r].
    split; [by rewrite fmap_app, Hf|]. split; [by rewrite fmap_app, Hb|].
    split.
    + intros h. rewrite filter_app, last_app, filter_cons, filter_nil.
      simpl. destruct (decide (getDomain (targetUrl d) = h)) as [<-|Hne].
      * simpl. apply lookup_insert_eq.
      * simpl. by rewrite lookup_insert_ne.
    + intros p. rewrite filter_app, last_app, filter_cons, filter_nil.
      simpl. destruct (decide (getDomain (String c u) = p)) as [<-|Hne].
      * simpl. apply lookup_insert_eq.
      * simpl. by rewrite lookup_insert_ne.
Qed.

(** X2.  The patterns list the registered hostnames in configuration order,
    duplicates kept; each dictionary maps a hostname to its counterpart in
    the last configuration registered for it, and has no entry for a
    hostname that was never registered. *)
Theorem tables_hold_last_registration (getDomain : string → string)
    (ds : list DomainConfig) :
  let t := build getDomain ds in
  let ps := registered getDomain ds in
  escapedUrls t = ps.*1
  ∧ reverseEcapedUrls t = ps.*2
  ∧ (∀ h, replaceMap t !! h = snd <$> last (filter (λ q, q.1 = h) ps))
  ∧ (∀ p, reverseReplaceMap t !! p = fst <$> last (filter (λ q, q.2 = p) ps)).
Proof. exact (build_registered getDomain ds). Qed.

Lemma publicDomains_registered getDomain ds :
  publicDomains getDomain ds = (registered getDomain ds).*2.
Proof.
  unfold publicDomains, registered.
  induction ds as [|d ds IH]; [done|].
  rewrite filter_cons.
  destruct (decide (truthy_string (publicUrl d) = true)) as [Ht|Ht].
  - rewrite fmap_cons. simpl. rewrite Ht.
    destruct (publicUrl d) as [u|]; [|done]. simpl. f_equal. exact IH.
  - apply not_true_is_false in Ht. simpl. by rewrite Ht.
Qed.

(** X1.  The names a certificate is asked for are exactly the public
    hostnames the reverse pattern of the listeners is compiled from, in the
    same order, and the subject is the first of them. *)
Theorem certificate_names_are_public_hosts (getDomain : string → string)
    (options : GreenlockOptions) (config : PortlessConfig)
    (ds : list DomainConfig) :
  domains config = Some ds →
  ∃ site t,
    requestedSite getDomain (Some options) config = Some site
    ∧ tables getDomain config = Some t
    ∧ altnames site = reverseEcapedUrls t
    ∧ subject site = head (reverseEcapedUrls t).
Proof.
  intros Hds. unfold requestedSite, tables. rewrite Hds.
  eexists _, _. split; [reflexivity|]. split; [reflexivity|].
  destruct (tables_hold_last_registration getDomain ds) as (_ & Hb & _).
  simpl. by rewrite Hb, publicDomains_registered.
Qed.

Lemma certificate_names_are_public_hosts_witness :
  ∃ site t,
    requestedSite hostnameOf
      (Some {| packageAgent := "portless"; maintainerEmail := "dev@app.example";
               staging := Some true |})
      {| domains := Some scenarioDomains; redirects := None;
         targetProxy := None |} = Some site
    ∧ tables hostnameOf
        {| domains := Some scenarioDomains; redirects := None;
           targetProxy := None |} = Some t
    ∧ altnames site = reverseEcapedUrls t
    ∧ subject site = head (reverseEcapedUrls t).
Proof.
  apply (certificate_names_are_public_hosts hostnameOf
           {| packageAgent := "portless"; maintainerEmail := "dev@app.example";
              staging := Some true |}
           {| domains := Some scenarioDomains; redirects := None;
              targetProxy := None |} scenarioDomains).
  reflexivity.
Defined.

(** ** Overlapping hostnames *)

Lemma startsWith_app_l a x s :
  JS.startsWith (a +:+ x) s = true → JS.startsWith a s = true.
Proof.
  revert s. induction a as [|c a IH]; intros s; simpl; [done|].
  destruct s as [|b s]; [done|].
  intros [? ?]%andb_true_iff. apply andb_true_iff. split; [done|by apply IH].
Qed.

Lemma append_longer a x : x ≠ "" → a +:+ x ≠ a.
Proof.
  intros Hx Heq. apply (f_equal String.length) in Heq.
  rewrite length_append in Heq. destruct x; [done|]. simpl in Heq. lia.
Qed.

Lemma first_match_shadowed pre h1 post x s :
  x ≠ "" → (h1 +:+ x) ∉ pre →
  JS.first_match (pre ++ h1 :: post) s ≠ Some (h1 +:+ x).
Proof.
  intros Hx. induction pre as [|a pre IH]; intros Hpre; simpl.
  - destruct (JS.startsWith h1 s) eqn:E.
    + intros [= H]. by apply (append_longer h1 x).
    + intros H. apply first_match_Some in H as [_ H].
      apply startsWith_app_l in H. congruence.
  - apply not_elem_of_cons in Hpre as [Hne Hpre].
    destruct (JS.startsWith a s); [congruence|by apply IH].
Qed.

(** The substitution consults the function only at the matches it finds. *)
Lemma replace_from_ext alts f g skip s :
  (∀ a, a ∈ JS.matches_from alts skip s → f a = g a) →
  JS.replace_from alts f skip s = JS.replace_from alts g skip s.
Proof.
  revert skip. induction s as [|c s IH]; intros skip H.
  - simpl in *. destruct skip; [|done].
    destruct (JS.first_match alts "") as [a|]; [|done].
    rewrite H; [done|]. by left.
  - cbn [JS.replace_from JS.matches_from] in *. destruct skip as [|k].
    + destruct (JS.first_match alts (String c s)) as [a|].
      * rewrite (H a) by (by left). f_equal.
        destruct (String.length a); [f_equal|]; apply IH;
          intros b Hb; apply H; by right.
      * f_equal. by apply IH.
    + by apply IH.
Qed.

Lemma matches_from_never alts skip s h :
  (∀ s', JS.first_match alts s' ≠ Some h) →
  h ∉ JS.matches_from alts skip s.
Proof.
  intros Hnever. revert skip. induction s as [|c s IH]; intros skip.
  - simpl. destruct skip; [|apply not_elem_of_nil].
    destruct (JS.first_match alts "") as [a|] eqn:E; [|apply not_elem_of_nil].
    apply not_elem_of_cons. split; [|apply not_elem_of_nil].
    intros ->. by apply (Hnever "").
  - cbn [JS.matches_from]. destruct skip as [|k]; [|apply IH].
    destruct (JS.first_match alts (String c s)) as [a|] eqn:E; [|apply IH].
    apply not_elem_of_cons. split.
    + intros ->. by apply (Hnever (String c s)).
    + destruct (String.length a); apply IH.
Qed.

(** X3.  When a hostname is registered before a longer one that it is a
    prefix of, the longer one is never matched in any text, and the public
    hostname configured for it has no influence on the forward
    substitution. *)
Theorem shorter_hostname_shadows_longer (t : DomainTable)
    (pre post : list string) (h1 x : string) :
  escapedUrls t = pre ++ h1 :: post →
  x ≠ "" → (h1 +:+ x) ∉ pre →
  ∀ text,
    ((h1 +:+ x) ∉ JS.matches (escapedUrls t) text)
    ∧ ∀ p, forward {| replaceMap := <[h1 +:+ x := p]> (replaceMap t);
                      escapedUrls := escapedUrls t;
                      reverseReplaceMap := reverseReplaceMap t;
                      reverseEcapedUrls := reverseEcapedUrls t |} text
           = forward t text.
Proof.
  intros Halts Hx Hpre text.
  assert (h1 +:+ x ∉ JS.matches (escapedUrls t) text) as Hnot.
  { unfold JS.matches. rewrite alternatives_nonempty
      by (rewrite Halts; by destruct pre).
    apply matches_from_never. intros s'. rewrite Halts.
    by apply first_match_shadowed. }
  split; [exact Hnot|]. intros p. unfold forward, JS.replace. simpl.
  apply replace_from_ext. intros a Ha. unfold replaceFunc. simpl.
  apply lookup_insert_ne. intros <-. by apply Hnot.
Qed.

Lemma shorter_hostname_shadows_longer_witness :
  let t := build hostnameOf
             [ {| targetUrl := "http://localhost:3000";
                  publicUrl := Some "https://app.example" |};
               {| targetUrl := "http://localhost:30001";
                  publicUrl := Some "https://api.example" |} ] in
  ("localhost:30001" ∉ JS.matches (escapedUrls t) "http://localhost:30001/")
  ∧ forward t "http://localhost:30001/" = "http://app.example1/".
Proof.
  intros t.
  destruct (shorter_hostname_shadows_longer t [] ["localhost:30001"]
              "localhost:3000" "1" eq_refl ltac:(discriminate)
              ltac:(apply not_elem_of_nil) "http://localhost:30001/")
    as [H _].
  split; [exact H|reflexivity].
Defined.


(** ** Texts cut into pieces *)

Section Pieces.

Variable alts : list string.
Variable f : string → option string.
Hypothesis alts_nonempty : Forall (λ a, a ≠ "") alts.

Lemma first_match_beginsAt s :
  JS.first_match alts s = head (beginsAt alts s).
Proof using Type.
  clear alts_nonempty. unfold beginsAt.
  induction alts as [|a rest IH]; [done|].
  simpl. rewrite filter_cons. destruct (JS.startsWith a s) eqn:E.
  - by rewrite decide_True.
  - rewrite decide_False by (by intros ?). exact IH.
Qed.

Lemma replace_gap g after :
  noneWithin alts g after →
  JS.replace_from alts f 0 (g +:+ after)
  = g +:+ JS.replace_from alts f 0 after.
Proof using Type.
  induction g as [|c g IH]; intros H; [done|]. destruct H as [H1 H2].
  change (String c g +:+ ?X) with (String c (g +:+ X)).
  rewrite replace_miss.
  - f_equal. by apply IH.
  - rewrite first_match_beginsAt.
    change (String c (g +:+ after)) with (String c g +:+ after).
    by rewrite H1.
Qed.

(** Where the hostnames stand apart, the substitution replaces each hostname
    piece by what the function gives for it and keeps the rest. *)
Lemma replace_pieces ps :
  apart alts ps →
  JS.replace_from alts f 0 (joined ps)
  = substituted (λ h, JS.toString (f h)) ps.
Proof using alts_nonempty.
  induction ps as [|[g|h] ps IH]; intros H.
  - by apply replace_nil.
  - destruct H as [H1 H2]. cbn [joined text_of substituted].
    rewrite replace_gap by done. f_equal. by apply IH.
  - destruct H as [H1 H2]. cbn [joined text_of substituted].
    rewrite <- first_match_beginsAt in H1.
    rewrite replace_hit; [f_equal; by apply IH|done|].
    apply first_match_Some in H1 as [Hin _].
    rewrite Forall_forall in alts_nonempty. by apply alts_nonempty.
Qed.

Lemma substituted_ext (i1 i2 : string → string) ps :
  apart alts ps → (∀ h, h ∈ alts → i1 h = i2 h) →
  substituted i1 ps = substituted i2 ps.
Proof using Type.
  intros H Hi. induction ps as [|[g|h] ps IH]; [done| |];
    destruct H as [H1 H2]; cbn [substituted].
  - f_equal. by apply IH.
  - rewrite <- first_match_beginsAt in H1.
    apply first_match_Some in H1 as [Hin _].
    rewrite (Hi h Hin). f_equal. by apply IH.
Qed.

End Pieces.

Lemma last_filter_elem {A} (P : A → Prop) `{∀ x, Decision (P x)}
    (l : list A) (x : A) :
  x ∈ l → P x → ∃ y, last (filter P l) = Some y ∧ P y ∧ y ∈ l.
Proof.
  intros Hin Px.
  assert (x ∈ filter P l) as Hx by (by apply list_elem_of_filter).
  destruct (last (filter P l)) as [y|] eqn:E.
  - exists y. split; [done|]. apply last_Some in E as [l' E].
    assert (y ∈ filter P l) as Hy.
    { rewrite E. apply elem_of_app. right. by left. }
    by apply list_elem_of_filter in Hy.
  - apply last_None in E. rewrite E in Hx. by apply elem_of_nil in Hx.
Qed.

(** On a text in which the target hostnames stand apart, the forward
    substitution puts for each of them the public hostname registered last
    for it. *)
Lemma forward_apart getDomain ds ps :
  registered getDomain ds ≠ [] →
  Forall (λ q, q.1 ≠ "") (registered getDomain ds) →
  apart (registered getDomain ds).*1 ps →
  forward (build getDomain ds) (joined ps)
  = substituted (publicOf (registered getDomain ds)) ps.
Proof.
  intros Hne Hall Hap.
  destruct (build_registered getDomain ds) as (Hf & _ & Hfm & _).
  unfold forward, JS.replace. rewrite Hf.
  rewrite alternatives_nonempty by (by destruct (registered getDomain ds)).
  rewrite replace_pieces; [|by apply Forall_fmap|done].
  apply (substituted_ext _ _ _ _ Hap). intros h Hin.
  unfold replaceFunc, publicOf. rewrite Hfm.
  apply list_elem_of_fmap in Hin as (q & -> & Hq).
  destruct (last_filter_elem (λ q', q'.1 = q.1) _ q Hq eq_refl)
    as (y & -> & _). done.
Qed.

Lemma backward_apart getDomain ds ps :
  registered getDomain ds ≠ [] →
  Forall (λ q, q.2 ≠ "") (registered getDomain ds) →
  apart (registered getDomain ds).*2 ps →
  backward (build getDomain ds) (joined ps)
  = substituted (targetOf (registered getDomain ds)) ps.
Proof.
  intros Hne Hall Hap.
  destruct (build_registered getDomain ds) as (_ & Hb & _ & Hbm).
  unfold backward, JS.replace. rewrite Hb.
  rewrite alternatives_nonempty by (by destruct (registered getDomain ds)).
  rewrite replace_pieces; [|by apply Forall_fmap|done].
  apply (substituted_ext _ _ _ _ Hap). intros h Hin.
  unfold reverseReplaceFunc, targetOf. rewrite Hbm.
  apply list_elem_of_fmap in Hin as (q & -> & Hq).
  destruct (last_filter_elem (λ q', q'.2 = q.2) _ q Hq eq_refl)
    as (y & -> & _). done.
Qed.

(** ** Headers objects and the fields sent *)

Lemma laidOver_lookup o h k :
  laidOver o h !! k
  = match last (filter (λ p, JS.toLowerCase p.1 = k) o) with
    | Some p => Some p.2
    | None => h !! k
    end.
Proof.
  induction o as [|p o IH] using rev_ind; [done|].
  unfold laidOver in *. rewrite foldl_app, filter_app, last_app. simpl.
  rewrite filter_cons, filter_nil.
  destruct (decide (JS.toLowerCase p.1 = k)) as [<-|Hne]; simpl.
  - by rewrite lookup_insert_eq.
  - rewrite lookup_insert_ne by done. exact IH.
Qed.

Lemma filter_deleteProp n o k :
  k ≠ JS.toLowerCase n →
  filter (λ p, JS.toLowerCase p.1 = k) (deleteProp n o)
  = filter (λ p, JS.toLowerCase p.1 = k) o.
Proof.
  intros Hk. unfold deleteProp. induction o as [|a o IH]; [done|].
  rewrite (filter_cons (λ p, p.1 ≠ n)).
  rewrite (filter_cons (λ p, JS.toLowerCase p.1 = k) a o).
  destruct (decide (a.1 ≠ n)) as [Hn|Hn].
  - rewrite filter_cons, IH. done.
  - apply dec_stable in Hn. rewrite decide_False by congruence. exact IH.
Qed.

Lemma prop_deleteProp n o k :
  k ≠ n → prop (deleteProp n o) k = prop o k.
Proof.
  intros Hk. unfold deleteProp. induction o as [|[a v] o IH]; [done|].
  rewrite filter_cons. simpl. destruct (decide (a ≠ n)) as [Hn|Hn]; simpl.
  - by rewrite IH.
  - apply dec_stable in Hn. subst a.
    assert (String.eqb n k = false) as -> by (apply String.eqb_neq; congruence).
    exact IH.
Qed.

Lemma assignProp_fmap n v o :
  is_Some (prop o n) →
  assignProp n v o = (λ p, if String.eqb p.1 n then (n, v) else p) <$> o.
Proof. unfold assignProp. by intros [w ->]. Qed.

Lemma filter_assigned_ne n v (o : object) k :
  k ≠ JS.toLowerCase n →
  filter (λ p, JS.toLowerCase p.1 = k)
    ((λ p : string * hval, if String.eqb p.1 n then (n, v) else p) <$> o)
  = filter (λ p, JS.toLowerCase p.1 = k) o.
Proof.
  intros Hk. induction o as [|a o IH]; [done|].
  rewrite fmap_cons, !filter_cons, IH.
  destruct (String.eqb a.1 n) eqn:E; [|done].
  apply String.eqb_eq in E. simpl. rewrite E.
  by rewrite !decide_False by congruence.
Qed.

Lemma filter_assigned_none n v (o : object) :
  JS.toLowerCase n = n →
  filter (λ p, JS.toLowerCase p.1 = n) o = [] →
  (λ p : string * hval, if String.eqb p.1 n then (n, v) else p) <$> o = o.
Proof.
  intros Hn. induction o as [|a o IH]; [done|].
  rewrite filter_cons. destruct (decide _) as [|Hne]; [done|].
  intros H. rewrite fmap_cons, (IH H).
  assert (String.eqb a.1 n = false) as ->; [|done].
  apply String.eqb_neq. intros E. by rewrite E in Hne.
Qed.

Lemma prop_unspelled n (o : object) :
  JS.toLowerCase n = n → spellings o n = [] → prop o n = None.
Proof.
  intros Hn. unfold spellings. induction o as [|[a w] o IH]; [done|].
  rewrite filter_cons. simpl. destruct (decide _) as [|Hne]; [done|].
  intros H. rewrite (IH H).
  assert (String.eqb a n = false) as ->; [|done].
  apply String.eqb_neq. intros E. by rewrite E in Hne.
Qed.

(** A property spelled in one way only is found under that spelling, and
    assigning to it changes what the object gives for the field. *)
Lemma filter_assigned_one n v (o : object) :
  JS.toLowerCase n = n → spellings o n = [n] →
  filter (λ p, JS.toLowerCase p.1 = n)
    ((λ p : string * hval, if String.eqb p.1 n then (n, v) else p) <$> o)
  = [(n, v)].
Proof.
  intros Hn. unfold spellings. induction o as [|[a w] o IH]; [done|].
  rewrite fmap_cons, !filter_cons. simpl.
  destruct (decide (JS.toLowerCase a = n)) as [Ha|Ha].
  - rewrite fmap_cons. simpl. intros [= -> Ho].
    rewrite String.eqb_refl. simpl. rewrite decide_True by done.
    apply fmap_nil_inv in Ho.
    by rewrite (filter_assigned_none _ _ _ Hn Ho), Ho.
  - intros H.
    assert (String.eqb a n = false) as ->.
    { apply String.eqb_neq. intros E. by rewrite E in Ha. }
    simpl. rewrite decide_False by done. by apply IH.
Qed.

Lemma headers_of_with_headers args h :
  is_Some (headers_of args) →
  headers_of (with_headers args (Some h)) = Some h.
Proof. destruct args as [|? [|]|? ? [|]]; simpl; by intros [? ?]. Qed.

Lemma with_headers_None args : with_headers args None = args.
Proof. by destruct args as [|? [|]|? ? [|]]. Qed.

Lemma headers_of_replaced args hs :
  (is_Some hs ↔ is_Some (headers_of args)) →
  headers_of (with_headers args hs) = hs.
Proof.
  intros H. destruct hs as [h|].
  - apply headers_of_with_headers, H. by eexists.
  - rewrite with_headers_None.
    destruct (headers_of args) as [h|] eqn:E; [|done].
    assert (is_Some (@None object)) as [? ?]; [|done].
    apply H. by eexists.
Qed.

Lemma status_of_with_headers args hs :
  status_of (with_headers args hs) = status_of args
  ∧ message_of (with_headers args hs) = message_of args.
Proof. by destruct args as [|? [|]|? ? [|]], hs. Qed.

Lemma deleteLength_is_Some sr hs : is_Some (deleteLength sr hs) ↔ is_Some hs.
Proof. destruct sr, hs; simpl; split; intros [? ?]; by eexists. Qed.

(** What the wrapper leaves of the headers object: the same properties, but
    for [access-control-allow-origin] when it is a string. *)
Lemma replaceCorsIn_cases t hs hs2 :
  replaceCorsIn t hs = Some hs2 →
  hs2 = hs
  ∨ ∃ h v, hs = Some h
           ∧ prop h "access-control-allow-origin" = Some (HStr v)
           ∧ v ≠ ""
           ∧ hs2 = Some ((λ p : string * hval,
                            if String.eqb p.1 "access-control-allow-origin"
                            then ("access-control-allow-origin",
                                  HStr (forward t v))
                            else p) <$> h).
Proof.
  unfold replaceCorsIn. intros H. destruct hs as [h|]; [|left; by simplify_eq].
  destruct (prop h "access-control-allow-origin") as [[v|n|l]|] eqn:E;
    simpl in H.
  - destruct v as [|c v]; [left; by simplify_eq|]. right.
    injection H as <-. exists h, (String c v).
    rewrite assignProp_fmap by (by rewrite E). by repeat split.
  - destruct n; [left; by simplify_eq|done|done].
  - done.
  - left. by simplify_eq.
Qed.

Lemma replaceCorsIn_is_Some t hs hs2 :
  replaceCorsIn t hs = Some hs2 → (is_Some hs2 ↔ is_Some hs).
Proof.
  intros [->|(h & v & -> & _ & _ & ->)]%replaceCorsIn_cases; [done|].
  split; intros _; by eexists.
Qed.

Lemma replaceCorsIn_other t hs hs2 k :
  replaceCorsIn t hs = Some hs2 → k ≠ "access-control-allow-origin" →
  filter (λ p, JS.toLowerCase p.1 = k) (default [] hs2)
  = filter (λ p, JS.toLowerCase p.1 = k) (default [] hs).
Proof.
  intros [->|(h & v & -> & _ & _ & ->)]%replaceCorsIn_cases Hk; [done|].
  simpl. by apply filter_assigned_ne.
Qed.

(** What the wrapper leaves of the response before the native call. *)
Lemma removeLength_Some sr r r1 :
  removeLength sr r = Some r1 →
  flushed r = None
  ∧ headers r1 = (if sr then delete "content-length" (headers r)
                  else headers r)
  ∧ flushed r1 = flushed r ∧ body r1 = body r ∧ finished r1 = finished r
  ∨ sr = false ∧ r1 = r.
Proof.
  destruct sr; simpl; [|intros [= <-]; by right].
  intros [Hf ->]%removeHeader_Some. left. by repeat split.
Qed.

Lemma removeLength_unflushed sr r :
  flushed r = None → ∃ r1, removeLength sr r = Some r1.
Proof.
  intros Hf. destruct sr; simpl; [|by eexists].
  unfold removeHeader, headersSent. rewrite Hf. by eexists.
Qed.

Lemma replaceCors_Some t r r2 :
  replaceCors t r = Some r2 →
  flushed r2 = flushed r ∧ body r2 = body r ∧ finished r2 = finished r
  ∧ (∀ k, k ≠ "access-control-allow-origin" →
          headers r2 !! k = headers r !! k)
  ∧ headers r2 !! "access-control-allow-origin"
    = match headers r !! "access-control-allow-origin" with
      | Some (HStr v) => Some (HStr (if v is "" then "" else forward t v))
      | other => other
      end.
Proof.
  unfold replaceCors, getHeader.
  change (JS.toLowerCase "access-control-allow-origin")
    with "access-control-allow-origin".
  destruct (headers r !! "access-control-allow-origin") as [[v|n|l]|] eqn:E;
    try (intros [= <-]; rewrite ?E; by repeat split).
  destruct v as [|c v]; simpl; [intros [= <-]; rewrite E; by repeat split|].
  intros [Hf ->]%setHeader_Some. cbn [flushed body finished headers].
  change (JS.toLowerCase "access-control-allow-origin")
    with "access-control-allow-origin".
  repeat split.
  - intros k Hk. by rewrite lookup_insert_ne.
  - by rewrite lookup_insert_eq.
Qed.

Lemma replaceCors_unflushed t r :
  flushed r = None → ∃ r2, replaceCors t r = Some r2.
Proof.
  intros Hf. unfold replaceCors.
  destruct (getHeader r _) as [[v|n|l]|]; try by eexists.
  destruct (truthy _); [|by eexists].
  unfold setHeader, headersSent. rewrite Hf. by eexists.
Qed.

(** The wrapper returns when the headers were not sent yet, the decision can
    be taken, and the headers object has no allow-origin property that is
    truthy and not a string. *)
Lemma writeHead_wrapper_returns t r args sr :
  flushed r = None →
  decideRewrite r (headers_of args) = Some sr →
  (∀ h v, headers_of args = Some h →
          prop h "access-control-allow-origin" = Some v →
          truthy (Some v) = true → ∃ s, v = HStr s) →
  ∃ r', writeHead_wrapper t r args = Some (sr, r').
Proof.
  intros Hf Hd Hcors. unfold writeHead_wrapper. rewrite Hd.
  cbn [mbind option_bind].
  destruct (removeLength_unflushed sr r Hf) as [r1 E1]. rewrite E1.
  cbn [mbind option_bind].
  assert (flushed r1 = None) as Hf1
    by (by rewrite (removeLength_flushed _ _ _ E1)).
  destruct (replaceCors_unflushed t r1 Hf1) as [r2 E2]. rewrite E2.
  cbn [mbind option_bind].
  assert (flushed r2 = None) as Hf2
    by (by rewrite (replaceCors_flushed _ _ _ E2)).
  assert (∃ x, replaceCorsIn t (deleteLength sr (headers_of args)) = Some x)
    as [x ->].
  { destruct (headers_of args) as [h|] eqn:E; [|destruct sr; by eexists].
    assert (∃ h1, deleteLength sr (Some h) = Some h1
                  ∧ prop h1 "access-control-allow-origin"
                    = prop h "access-control-allow-origin")
      as (h1 & -> & Hh1).
    { destruct sr; simpl; eexists; (split; [done|]); [|done].
      by apply prop_deleteProp. }
    unfold replaceCorsIn. rewrite Hh1.
    destruct (prop h "access-control-allow-origin") as [v|] eqn:Ev;
      [|by eexists].
    destruct (truthy (Some v)) eqn:Ht; [|by eexists].
    destruct (Hcors h v eq_refl Ev Ht) as [s ->]. by eexists. }
  cbn [mbind option_bind].
  unfold native_writeHead, headersSent. rewrite Hf2. by eexists.
Qed.

(** Once the headers were sent the wrapper throws. *)
Lemma writeHead_wrapper_flushed t r args :
  is_Some (flushed r) → writeHead_wrapper t r args = None.
Proof.
  intros [hd Hf].
  destruct (writeHead_wrapper t r args) as [[sr r']|] eqn:E; [|done].
  apply writeHead_wrapper_inv in E as (Hf' & _). congruence.
Qed.

(** The fields sent by the wrapper, one by one. *)
Lemma writeHead_wrapper_sent t r args sr r' :
  writeHead_wrapper t r args = Some (sr, r') →
  ∃ r2 hs2,
    replaceCorsIn t (deleteLength sr (headers_of args)) = Some hs2
    ∧ (∀ k, k ≠ "access-control-allow-origin" →
            headers r2 !! k
            = if sr then delete "content-length" (headers r) !! k
              else headers r !! k)
    ∧ headers r2 !! "access-control-allow-origin"
      = match headers r !! "access-control-allow-origin" with
        | Some (HStr v) => Some (HStr (if v is "" then "" else forward t v))
        | other => other
        end
    ∧ body r2 = body r ∧ finished r2 = finished r
    ∧ r' = storeHeader r2 (with_headers args hs2)
    ∧ ∀ k, sent r' k = laidOver (default [] hs2) (headers r2) !! k.
Proof.
  intros (Hf & Hd & r1 & r2 & hs2 & E1 & E2 & E3 & ->)%writeHead_wrapper_inv.
  exists r2, hs2. split; [done|].
  apply replaceCors_Some in E2 as (Hf2 & Hb2 & Hfin2 & Hk2 & Ha2).
  assert (headers r1 = (if sr then delete "content-length" (headers r)
                        else headers r)
          ∧ body r1 = body r ∧ finished r1 = finished r) as (Hh1 & Hb1 & Hfin1).
  { apply removeLength_Some in E1 as [(_ & ? & _ & ? & ?)|[-> ->]]; done. }
  split; [intros k Hk; rewrite Hk2, Hh1 by done; by destruct sr|].
  split.
  { rewrite Ha2, Hh1. destruct sr; [|done].
    by rewrite lookup_delete_ne. }
  split; [congruence|]. split; [congruence|]. split; [done|].
  intros k. unfold sent, storeHeader. cbn [flushed mbind option_bind fields].
  rewrite headers_of_replaced; [done|].
  by rewrite (replaceCorsIn_is_Some _ _ _ E3), deleteLength_is_Some.
Qed.

(** ** The length of the body *)

(** C4 (the code at the failing input).  A length given to [writeHead] under
    the name [Content-Length] is sent although the body is rewritten and no
    longer has that length: the wrapper deletes the property
    [content-length] of the headers object, so spelled, and no other.
    Given as [content-length], or set on the response before under either
    spelling, the length is not sent. *)
Theorem content_length_sent_stale :
  (λ s, (sent (response s) "content-length", body (response s)))
    <$> run String.string_of_list_byte
          (Gated scenarioTable false freshResponse)
          (pageWithHeaders [("content-type", HStr "text/html");
                            ("Content-Length", HStr "14")])
  = Some (Some (HStr "14"), [Text "app.example"])
  ∧ (λ s, (sent (response s) "content-length", body (response s)))
      <$> run String.string_of_list_byte
            (Gated scenarioTable false freshResponse)
            (pageWithHeaders [("content-type", HStr "text/html");
                              ("content-length", HStr "14")])
    = Some (None, [Text "app.example"])
  ∧ (λ s, (sent (response s) "content-length", body (response s)))
      <$> run String.string_of_list_byte
            (Gated scenarioTable false freshResponse)
            (SetHeader "Content-Length" (HStr "14")
               :: pageWithHeaders [("content-type", HStr "text/html")])
    = Some (None, [Text "app.example"])
  ∧ (λ s, (sent (response s) "content-length", body (response s)))
      <$> run String.string_of_list_byte (Native freshResponse)
            (pageWithHeaders [("content-type", HStr "text/html");
                              ("Content-Length", HStr "14")])
    = Some (Some (HStr "14"), [Text "localhost:3000"]).
Proof. repeat split; reflexivity. Qed.

(** ** The allow-origin field *)

Lemma replaceCorsIn_string t h v :
  prop h "access-control-allow-origin" = Some (HStr v) → v ≠ "" →
  replaceCorsIn t (Some h)
  = Some (Some ((λ p : string * hval,
                   if String.eqb p.1 "access-control-allow-origin"
                   then ("access-control-allow-origin", HStr (forward t v))
                   else p) <$> h)).
Proof.
  intros Hp Hv. unfold replaceCorsIn. rewrite Hp.
  assert (truthy (Some (HStr v)) = true) as -> by (by destruct v).
  by rewrite assignProp_fmap by (by rewrite Hp).
Qed.

Lemma replaceCorsIn_unspelled t hs :
  (∀ h, hs = Some h → spellings h "access-control-allow-origin" = []) →
  replaceCorsIn t hs = Some hs.
Proof.
  intros H. destruct hs as [h|]; [|done]. unfold replaceCorsIn.
  by rewrite (prop_unspelled _ h eq_refl (H h eq_refl)).
Qed.

Lemma spellings_deleteLength sr h :
  spellings (default [] (deleteLength sr (Some h)))
    "access-control-allow-origin"
  = spellings h "access-control-allow-origin".
Proof.
  unfold spellings. destruct sr; simpl; [|done].
  by rewrite filter_deleteProp.
Qed.

(** The field sent for a string value [v] of the allow-origin field, set on
    the response or given in the headers object under that name: its forward
    substitution. *)
Lemma allow_origin_forward t r args sr v :
  v ≠ "" →
  flushed r = None →
  decideRewrite r (headers_of args) = Some sr →
  (getHeader r "access-control-allow-origin" = Some (HStr v)
   ∧ (∀ h, headers_of args = Some h →
           spellings h "access-control-allow-origin" = [])
   ∨ ∃ h, headers_of args = Some h
          ∧ prop h "access-control-allow-origin" = Some (HStr v)
          ∧ spellings h "access-control-allow-origin"
            = ["access-control-allow-origin"]) →
  ∃ r', writeHead_wrapper t r args = Some (sr, r')
        ∧ sent r' "access-control-allow-origin" = Some (HStr (forward t v)).
Proof.
  intros Hv Hf Hd Hroute.
  destruct (writeHead_wrapper_returns t r args sr Hf Hd) as [r' Hr'].
  { intros h x Hh Hx _.
    destruct Hroute as [[_ Hno]|(h' & Hh' & Hp & _)].
    - by rewrite (prop_unspelled _ h eq_refl (Hno h Hh)) in Hx.
    - simplify_eq. by eexists. }
  exists r'. split; [done|].
  destruct (writeHead_wrapper_sent _ _ _ _ _ Hr')
    as (r2 & hs2 & E3 & _ & Ha & _ & _ & _ & Hsent).
  rewrite Hsent, laidOver_lookup.
  destruct Hroute as [[Hg Hno]|(h & Hh & Hp & Hsp)].
  - rewrite replaceCorsIn_unspelled in E3.
    + injection E3 as <-.
      assert (filter (λ p, JS.toLowerCase p.1 = "access-control-allow-origin")
                (default [] (deleteLength sr (headers_of args))) = []) as ->.
      { destruct (headers_of args) as [h|] eqn:Eh; [|by destruct sr].
        apply fmap_nil_inv with (f := fst).
        fold (spellings (default [] (deleteLength sr (Some h)))
                "access-control-allow-origin").
        rewrite spellings_deleteLength. by apply Hno. }
      simpl. rewrite Ha. unfold getHeader in Hg.
      change (JS.toLowerCase "access-control-allow-origin")
        with "access-control-allow-origin" in Hg.
      rewrite Hg. by destruct v.
    + intros h1 Hh1.
      destruct (headers_of args) as [h|] eqn:Eh; [|by destruct sr].
      assert (h1 = default [] (deleteLength sr (Some h))) as ->
        by (by rewrite Hh1).
      rewrite spellings_deleteLength. by apply Hno.
  - rewrite Hh in E3.
    assert (∃ h1, deleteLength sr (Some h) = Some h1
                  ∧ prop h1 "access-control-allow-origin" = Some (HStr v)
                  ∧ spellings h1 "access-control-allow-origin"
                    = ["access-control-allow-origin"]) as (h1 & Eh1 & Hp1 & Hsp1).
    { exists (default [] (deleteLength sr (Some h))).
      rewrite spellings_deleteLength. split; [by destruct sr|].
      split; [|done]. destruct sr; simpl; [|done].
      by rewrite prop_deleteProp. }
    rewrite Eh1, (replaceCorsIn_string _ _ _ Hp1 Hv) in E3.
    injection E3 as <-. simpl.
    by rewrite (filter_assigned_one _ _ _ eq_refl Hsp1).
Qed.

(** An empty allow-origin value is sent as it is. *)
Lemma allow_origin_empty t r args sr :
  flushed r = None →
  decideRewrite r (headers_of args) = Some sr →
  (getHeader r "access-control-allow-origin" = Some (HStr "")
   ∧ (∀ h, headers_of args = Some h →
           spellings h "access-control-allow-origin" = [])
   ∨ ∃ h, headers_of args = Some h
          ∧ prop h "access-control-allow-origin" = Some (HStr "")
          ∧ spellings h "access-control-allow-origin"
            = ["access-control-allow-origin"]) →
  ∃ r', writeHead_wrapper t r args = Some (sr, r')
        ∧ sent r' "access-control-allow-origin" = Some (HStr "").
Proof.
  intros Hf Hd Hroute.
  destruct (writeHead_wrapper_returns t r args sr Hf Hd) as [r' Hr'].
  { intros h x Hh Hx Ht.
    destruct Hroute as [[_ Hno]|(h' & Hh' & Hp & _)].
    - by rewrite (prop_unspelled _ h eq_refl (Hno h Hh)) in Hx.
    - by simplify_eq. }
  exists r'. split; [done|].
  destruct (writeHead_wrapper_sent _ _ _ _ _ Hr')
    as (r2 & hs2 & E3 & _ & Ha & _ & _ & _ & Hsent).
  rewrite Hsent, laidOver_lookup.
  destruct Hroute as [[Hg Hno]|(h & Hh & Hp & Hsp)].
  - rewrite replaceCorsIn_unspelled in E3.
    + injection E3 as <-.
      assert (filter (λ p, JS.toLowerCase p.1 = "access-control-allow-origin")
                (default [] (deleteLength sr (headers_of args))) = []) as ->.
      { destruct (headers_of args) as [h|] eqn:Eh; [|by destruct sr].
        apply fmap_nil_inv with (f := fst).
        fold (spellings (default [] (deleteLength sr (Some h)))
                "access-control-allow-origin").
        rewrite spellings_deleteLength. by apply Hno. }
      simpl. rewrite Ha. unfold getHeader in Hg.
      change (JS.toLowerCase "access-control-allow-origin")
        with "access-control-allow-origin" in Hg.
      by rewrite Hg.
    + intros h1 Hh1.
      destruct (headers_of args) as [h|] eqn:Eh; [|by destruct sr].
      assert (h1 = default [] (deleteLength sr (Some h))) as ->
        by (by rewrite Hh1).
      rewrite spellings_deleteLength. by apply Hno.
  - rewrite Hh in E3.
    assert (∃ h1, deleteLength sr (Some h) = Some h1
                  ∧ prop h1 "access-control-allow-origin" = Some (HStr "")
                  ∧ spellings h1 "access-control-allow-origin"
                    = ["access-control-allow-origin"]) as (h1 & Eh1 & Hp1 & Hsp1).
    { exists (default [] (deleteLength sr (Some h))).
      rewrite spellings_deleteLength. split; [by destruct sr|].
      split; [|done]. destruct sr; simpl; [|done].
      by rewrite prop_deleteProp. }
    rewrite Eh1 in E3. unfold replaceCorsIn in E3. rewrite Hp1 in E3.
    injection E3 as <-. simpl.
    clear -Hp1 Hsp1. unfold spellings in Hsp1.
    induction h1 as [|[a w] h1 IH]; [done|].
    rewrite filter_cons in *. simpl in *.
    destruct (decide (JS.toLowerCase a = "access-control-allow-origin"))
      as [Ha|Ha].
    + rewrite fmap_cons in Hsp1. injection Hsp1 as -> Ho.
      apply fmap_nil_inv in Ho. rewrite Ho. simpl in Hp1. simpl.
      by injection Hp1 as ->.
    + apply IH; [|done].
      destruct (String.eqb a "access-control-allow-origin") eqn:E; [|done].
      apply String.eqb_eq in E. by subst a.
Qed.

(** C5 (as the code has it).  An allow-origin field with a string value, set
    on the response under any spelling or given to [writeHead] as the
    property [access-control-allow-origin], is sent with every target
    hostname that stands apart in it replaced by the public hostname
    registered last for it, whatever the decision [sr] for the body is; the
    wrapper returns. *)
Theorem cors_header_rewritten (getDomain : string → string)
    (ds : list DomainConfig) (r : ServerResponse) (args : writeHead_args)
    (sr : bool) (ps : list piece) :
  registered getDomain ds ≠ [] →
  Forall (λ q, q.1 ≠ "") (registered getDomain ds) →
  apart (registered getDomain ds).*1 ps →
  flushed r = None →
  decideRewrite r (headers_of args) = Some sr →
  (getHeader r "access-control-allow-origin" = Some (HStr (joined ps))
   ∧ (∀ h, headers_of args = Some h →
           spellings h "access-control-allow-origin" = [])
   ∨ ∃ h, headers_of args = Some h
          ∧ prop h "access-control-allow-origin" = Some (HStr (joined ps))
          ∧ spellings h "access-control-allow-origin"
            = ["access-control-allow-origin"]) →
  ∃ r', writeHead_wrapper (build getDomain ds) r args = Some (sr, r')
        ∧ sent r' "access-control-allow-origin"
          = Some (HStr (substituted (publicOf (registered getDomain ds)) ps)).
Proof.
  intros Hne Hall Hap Hf Hd Hroute.
  rewrite <- (forward_apart getDomain ds ps Hne Hall Hap).
  destruct (joined ps) eqn:E.
  - pose proof (forward_apart getDomain ds [] Hne Hall I) as H0.
    cbn [joined substituted] in H0. rewrite H0.
    by apply allow_origin_empty.
  - by apply allow_origin_forward.
Qed.

Lemma cors_header_rewritten_witness :
  let r := {| statusCode := 200;
              headers :=
                {[ "content-type" := HStr "application/octet-stream";
                   "access-control-allow-origin" :=
                     HStr "http://target.local, http://target.local:8080" ]};
              flushed := None; body := []; finished := false |} in
  (∃ r', writeHead_wrapper corsTable r (Args1 200) = Some (false, r')
         ∧ sent r' "access-control-allow-origin"
           = Some (HStr "http://public.example, http://public.example:8080"))
  ∧ ∃ r', writeHead_wrapper corsTable freshResponse
            (Args2 200 (inr [("content-type", HStr "text/html");
                             ("access-control-allow-origin",
                              HStr "http://target.local")]))
          = Some (true, r')
          ∧ sent r' "access-control-allow-origin"
            = Some (HStr "http://public.example").
Proof.
  intros r. split.
  - apply (cors_header_rewritten hostnameOf corsDomains r (Args1 200) false
             [Gap "http://"; Host "target.local"; Gap ", http://";
              Host "target.local"; Gap ":8080"]).
    + discriminate.
    + repeat constructor; discriminate.
    + vm_compute. repeat split.
    + reflexivity.
    + reflexivity.
    + left. split; [reflexivity|]. intros h. discriminate.
  - apply (cors_header_rewritten hostnameOf corsDomains freshResponse
             (Args2 200 (inr [("content-type", HStr "text/html");
                              ("access-control-allow-origin",
                               HStr "http://target.local")]))
             true [Gap "http://"; Host "target.local"]).
    + discriminate.
    + repeat constructor; discriminate.
    + vm_compute. repeat split.
    + reflexivity.
    + reflexivity.
    + right. eexists. split; [reflexivity|]. split; reflexivity.
Defined.

(** C5 (where the description fails).  A target hostname that begins with
    another one registered before it is not replaced by its own public
    hostname: the shorter one is, and the rest of the longer stays.  A
    value given to [writeHead] under the name
    [Access-Control-Allow-Origin], or set on the response as a list, is
    sent as it is. *)
Theorem allow_origin_mangled :
  (setHeader freshResponse "access-control-allow-origin"
     (HStr "http://localhost:30001")
     ≫= λ r, writeHead_wrapper overlapTable r (Args1 200)
     ≫= λ p, sent p.2 "access-control-allow-origin")
  = Some (HStr "http://app.example1")
  ∧ replaceMap overlapTable !! "localhost:30001" = Some "app.example.org"
  ∧ (writeHead_wrapper corsTable freshResponse
       (Args2 200 (inr [("Access-Control-Allow-Origin",
                         HStr "http://target.local")]))
       ≫= λ p, sent p.2 "access-control-allow-origin")
    = Some (HStr "http://target.local")
  ∧ (setHeader freshResponse "access-control-allow-origin"
       (HArr ["http://target.local"])
       ≫= λ r, writeHead_wrapper corsTable r (Args1 200)
       ≫= λ p, sent p.2 "access-control-allow-origin")
    = Some (HArr ["http://target.local"]).
Proof. repeat split; reflexivity. Qed.

(** ** The [writeHead] wrapper and the other header fields *)

Lemma filter_deleteLength sr hs k :
  k ≠ "content-length" ∨ sr = false →
  filter (λ p, JS.toLowerCase p.1 = k) (default [] (deleteLength sr hs))
  = filter (λ p, JS.toLowerCase p.1 = k) (default [] hs).
Proof.
  intros [Hk| ->]; [|done]. destruct sr, hs as [h|]; simpl; try done.
  by apply filter_deleteProp.
Qed.

(** X7.  The [writeHead] wrapper hands on the status code and the status
    message it was given, leaves body and end state alone, and sends every
    header field other than [content-length] and
    [access-control-allow-origin] exactly as the unwrapped [writeHead]
    would; with the decision "do not rewrite" that holds for
    [content-length] too. *)
Theorem writeHead_leaves_other_fields (t : DomainTable)
    (r r' : ServerResponse) (args : writeHead_args) (sr : bool) :
  writeHead_wrapper t r args = Some (sr, r') →
  ∃ r0, native_writeHead r args = Some r0
  ∧ (∀ k, k ≠ "content-length" → k ≠ "access-control-allow-origin" →
          sent r' k = sent r0 k)
  ∧ (sr = false → sent r' "content-length" = sent r0 "content-length")
  ∧ statusSent r' = status_of args
  ∧ reason <$> flushed r' = Some (message_of args)
  ∧ body r' = body r
  ∧ finished r' = finished r.
Proof.
  intros H. pose proof (writeHead_wrapper_inv _ _ _ _ _ H) as (Hf & _).
  exists (storeHeader r args). split; [by apply native_writeHead_Some|].
  destruct (writeHead_wrapper_sent _ _ _ _ _ H)
    as (r2 & hs2 & E3 & Hk2 & _ & Hb & Hfin & -> & Hsent).
  assert (∀ k, k ≠ "access-control-allow-origin" →
               (k ≠ "content-length" ∨ sr = false) →
               sent (storeHeader r2 (with_headers args hs2)) k
               = sent (storeHeader r args) k) as Hsame.
  { intros k Hk Hcl. rewrite Hsent.
    change (sent (storeHeader r args) k)
      with (laidOver (default [] (headers_of args)) (headers r) !! k).
    rewrite !laidOver_lookup, (replaceCorsIn_other _ _ _ _ E3 Hk).
    rewrite (filter_deleteLength _ _ _ Hcl), (Hk2 k Hk).
    destruct (last _); [done|].
    destruct Hcl as [Hcl| ->]; [|done]. destruct sr; [|done].
    by rewrite lookup_delete_ne. }
  split; [intros k Hk1 Hk2'; apply Hsame; [done|by left]|].
  split; [intros ->; apply Hsame; [done|by right]|].
  unfold statusSent, storeHeader. cbn [flushed code fmap option_fmap
    option_map reason body finished].
  destruct (status_of_with_headers args hs2) as [-> ->]. by repeat split.
Qed.

Lemma writeHead_leaves_other_fields_witness :
  let r := {| statusCode := 200;
              headers := {[ "content-type" := HStr "image/png";
                            "content-length" := HNum 42 ]};
              flushed := None; body := []; finished := false |} in
  ∃ r', writeHead_wrapper scenarioTable r
          (Args3 404 (Some "Not Found") (Some [("ETag", HStr "abc")]))
        = Some (false, r')
        ∧ sent r' "etag" = Some (HStr "abc")
        ∧ sent r' "content-length" = Some (HNum 42)
        ∧ statusSent r' = 404.
Proof.
  intros r.
  assert (∃ r', writeHead_wrapper scenarioTable r
            (Args3 404 (Some "Not Found") (Some [("ETag", HStr "abc")]))
          = Some (false, r')) as [r' E].
  { eexists. reflexivity. }
  exists r'. split; [exact E|].
  destruct (writeHead_leaves_other_fields scenarioTable _ r' _ false E)
    as (r0 & E0 & Hk & Hcl & Hst & _).
  injection E0 as <-.
  split; [|split; [|exact Hst]].
  - rewrite (Hk "etag") by discriminate. reflexivity.
  - rewrite (Hcl eq_refl). reflexivity.
Defined.

Lemma some_includes_None types v :
  some_includes types v = None → ∃ n, v = HNum n.
Proof.
  induction types as [|ty rest IH]; simpl; [done|].
  destruct v as [s|n|l]; simpl; [|by eexists|].
  - destruct (JS.includes ty s); [done|exact IH].
  - destruct (bool_decide (ty ∈ l)); [done|exact IH].
Qed.

(** The decision cannot be taken only when the declared content type is a
    number. *)
Lemma decideRewrite_None r hs :
  decideRewrite r hs = None → ∃ n, declaredType r hs (HNum n).
Proof.
  unfold decideRewrite.
  destruct (contentType r hs) as [v|] eqn:E; [|done].
  destruct (truthy (Some v)) eqn:Ht; [|done]. cbn [from_option].
  intros [n ->]%some_includes_None. exists n.
  by apply declaredType_contentType.
Qed.

(** X8.  The [writeHead] wrapper throws, and nothing is handed on for
    sending, when the headers were sent already, when the declared content
    type is a number other than zero, and when the headers object of the
    call has a truthy [access-control-allow-origin] that is not a string. *)
Theorem writeHead_throws (t : DomainTable) (r : ServerResponse)
    (args : writeHead_args) :
  is_Some (flushed r)
  ∨ (∃ n, declaredType r (headers_of args) (HNum n))
  ∨ (∃ h v, headers_of args = Some h
            ∧ prop h "access-control-allow-origin" = Some v
            ∧ truthy (Some v) = true
            ∧ ∀ s, v ≠ HStr s) →
  writeHead_wrapper t r args = None.
Proof.
  intros [Hf|[[n Hn]|(h & v & Hh & Hv & Ht & Hns)]].
  - by apply writeHead_wrapper_flushed.
  - unfold writeHead_wrapper. by rewrite (decideRewrite_declared _ _ _ Hn).
  - destruct (writeHead_wrapper t r args) as [[sr r']|] eqn:E; [|done].
    apply writeHead_wrapper_inv in E as (_ & _ & r1 & r2 & hs2 & _ & _ & E3 & _).
    rewrite Hh in E3.
    assert (∃ h1, deleteLength sr (Some h) = Some h1
                  ∧ prop h1 "access-control-allow-origin" = Some v)
      as (h1 & Eh1 & Hp1).
    { destruct sr; simpl; eexists; (split; [done|]); [|done].
      by rewrite prop_deleteProp. }
    rewrite Eh1 in E3. unfold replaceCorsIn in E3. rewrite Hp1, Ht in E3.
    destruct v as [s| |]; [by destruct (Hns s)|done|done].
Qed.

Lemma writeHead_throws_witness :
  let r := {| statusCode := 200;
              headers := {[ "content-type" := HNum 7 ]};
              flushed := None; body := []; finished := false |} in
  writeHead_wrapper scenarioTable r (Args1 200) = None
  ∧ writeHead_wrapper scenarioTable freshResponse
      (Args2 200 (inr [("access-control-allow-origin", HArr ["*"])])) = None.
Proof.
  intros r. split.
  - apply (writeHead_throws scenarioTable r (Args1 200)).
    right. left. exists 7. split; [reflexivity|]. left. reflexivity.
  - apply (writeHead_throws scenarioTable freshResponse
             (Args2 200 (inr [("access-control-allow-origin", HArr ["*"])]))).
    right. right. eexists _, _. split; [reflexivity|].
    split; [reflexivity|]. split; [reflexivity|]. discriminate.
Defined.

(** ** The upgrade handler *)

(** Without a domain configuration the upgrade request is forwarded as it
    came. *)
Lemma upgrade_without_domains req : onUpgrade None req = req.
Proof.
  destruct req as [u h o]. unfold onUpgrade. simpl. f_equal.
  - destruct h as [[|]|]; done.
  - destruct o as [[[|]|l]|]; try done. by rewrite list_fmap_id.
Qed.

(** C7 (as the code has it).  Before a WebSocket upgrade is handed to the
    transport, in the Host header, in a scalar Origin header and in every
    element of a list-valued Origin header each public hostname that stands
    apart is replaced by the target hostname registered last for it, and the
    rest of the value is kept; an absent header stays absent and the path
    is not touched.  With no domain configuration the request is forwarded
    as it came. *)
Theorem upgrade_headers_rewritten (getDomain : string → string)
    (ds : list DomainConfig) (req : IncomingMessage) (ps : list piece)
    (pss : list (list piece)) :
  registered getDomain ds ≠ [] →
  Forall (λ q, q.2 ≠ "") (registered getDomain ds) →
  apart (registered getDomain ds).*2 ps →
  Forall (apart (registered getDomain ds).*2) pss →
  let req' := onUpgrade (Some (build getDomain ds)) req in
  (host req = Some (joined ps) →
   host req' = Some (substituted (targetOf (registered getDomain ds)) ps))
  ∧ (origin req = Some (Scalar (joined ps)) →
     origin req'
     = Some (Scalar (substituted (targetOf (registered getDomain ds)) ps)))
  ∧ (origin req = Some (Many (joined <$> pss)) →
     origin req'
     = Some (Many (substituted (targetOf (registered getDomain ds)) <$> pss)))
  ∧ (host req = None → host req' = None)
  ∧ (origin req = None → origin req' = None)
  ∧ url req' = url req
  ∧ onUpgrade None req = req.
Proof.
  intros Hne Hall Hap Haps req'.
  pose proof (backward_apart getDomain ds ps Hne Hall Hap) as Hb.
  pose proof (backward_apart getDomain ds [] Hne Hall I) as H0.
  cbn [joined substituted] in H0.
  unfold req', onUpgrade. cbn [host origin url rewriteInbound].
  split; [|split; [|split; [|split; [|split; [|split]]]]].
  - intros ->. destruct (joined ps) eqn:E; simpl; [|by rewrite Hb].
    by rewrite <- Hb, H0.
  - intros ->. destruct (joined ps) eqn:E; simpl; [|by rewrite Hb].
    by rewrite <- Hb, H0.
  - intros ->. do 2 f_equal.
    induction Haps as [|x l Hx _ IH]; [done|].
    rewrite !fmap_cons. f_equal; [by apply backward_apart|exact IH].
  - by intros ->.
  - by intros ->.
  - done.
  - apply upgrade_without_domains.
Qed.

Lemma upgrade_headers_rewritten_witness :
  let req := {| url := Some "/socket"; host := Some "app.example";
                origin := Some (Scalar "http://app.example") |} in
  let req2 := {| url := Some "/socket"; host := None;
                 origin := Some (Many ["http://app.example";
                                       "app.example app.example:80"]) |} in
  host (onUpgrade (Some scenarioTable) req) = Some "localhost:3000"
  ∧ origin (onUpgrade (Some scenarioTable) req)
    = Some (Scalar "http://localhost:3000")
  ∧ origin (onUpgrade (Some scenarioTable) req2)
    = Some (Many ["http://localhost:3000";
                  "localhost:3000 localhost:3000:80"]).
Proof.
  intros req req2. split; [|split].
  - apply (proj1 (upgrade_headers_rewritten hostnameOf scenarioDomains req
                    [Host "app.example"] []
                    ltac:(discriminate)
                    ltac:(repeat constructor; discriminate)
                    ltac:(vm_compute; repeat split)
                    ltac:(constructor))).
    reflexivity.
  - apply (proj1 (proj2 (upgrade_headers_rewritten hostnameOf scenarioDomains
                    req [Gap "http://"; Host "app.example"] []
                    ltac:(discriminate)
                    ltac:(repeat constructor; discriminate)
                    ltac:(vm_compute; repeat split)
                    ltac:(constructor)))).
    reflexivity.
  - apply (proj1 (proj2 (proj2 (upgrade_headers_rewritten hostnameOf
                    scenarioDomains req2 []
                    [[Gap "http://"; Host "app.example"];
                     [Host "app.example"; Gap " "; Host "app.example";
                      Gap ":80"]]
                    ltac:(discriminate)
                    ltac:(repeat constructor; discriminate)
                    ltac:(exact I)
                    ltac:(repeat constructor; vm_compute; repeat split))))).
    reflexivity.
Defined.

(** C7 (where the description fails).  A public hostname that begins with
    another one registered before it is not replaced by its own target: the
    shorter one is, and the rest of the longer stays. *)
Theorem upgrade_host_mangled :
  let req := {| url := Some "/socket"; host := Some "app.example.org";
                origin := Some (Many ["https://app.example.org"]) |} in
  reverseReplaceMap overlapTable !! "app.example.org" = Some "localhost:30001"
  ∧ host (onUpgrade (Some overlapTable) req) = Some "localhost:3000.org"
  ∧ origin (onUpgrade (Some overlapTable) req)
    = Some (Many ["https://localhost:3000.org"]).
Proof. repeat split; reflexivity. Qed.

(** ** Texts without hostnames *)

Lemma forward_untouched t text :
  populated t → occurrences (escapedUrls t) text = 0%nat →
  forward t text = text.
Proof.
  intros (Hne & _ & Hall & _) H. unfold forward, JS.replace.
  rewrite alternatives_nonempty by done. by apply replace_untouched.
Qed.

Lemma backward_untouched t text :
  populated t → occurrences (reverseEcapedUrls t) text = 0%nat →
  backward t text = text.
Proof.
  intros (_ & Hne & _ & Hall) H. unfold backward, JS.replace.
  rewrite alternatives_nonempty by done. by apply replace_untouched.
Qed.

Lemma startsWith_refl s : JS.startsWith s s = true.
Proof. induction s as [|c s IH]; simpl; [done|]. by rewrite Ascii.eqb_refl. Qed.


(** ** The body wrappers *)

Section Streams.

Variable bufferToString : Buffer → string.

(** The response with one more chunk in its body. *)
Local Abbreviation pushed r data :=
  {| statusCode := statusCode r; headers := headers r; flushed := flushed r;
     body := body r ++ [data]; finished := finished r |}.

Lemma headersSent_true r : is_Some (flushed r) → headersSent r = true.
Proof. unfold headersSent. by intros [hd ->]. Qed.

Lemma headersSent_false r : flushed r = None → headersSent r = false.
Proof. unfold headersSent. by intros ->. Qed.

(** Once the headers were sent, [write] on the wrapped response sends the
    chunk, rewritten or not as decided, and changes nothing else. *)
Lemma write_wrapper_flushed t sr r data :
  is_Some (flushed r) →
  write_wrapper bufferToString t sr r data
  = Some (Gated t sr (pushed r (chunkSent bufferToString t sr data))).
Proof.
  intros Hf. unfold write_wrapper, native_write, implicitHeader, chunkSent.
  cbn [response]. rewrite (headersSent_true r Hf).
  by destruct sr, data.
Qed.

(** While they were not, [write] first has the wrapper of [writeHead] send
    them, as for [writeHead(statusCode)]; the chunk goes out as decided
    before. *)
Lemma write_wrapper_unflushed t sr r data :
  flushed r = None →
  write_wrapper bufferToString t sr r data
  = writeHead_wrapper t r (Args1 (statusCode r))
      ≫= λ p, Some (Gated t p.1
                      (pushed p.2 (chunkSent bufferToString t sr data))).
Proof.
  intros Hf. unfold write_wrapper, native_write, implicitHeader, chunkSent.
  cbn [response writeHead]. rewrite (headersSent_false r Hf).
  destruct (writeHead_wrapper t r (Args1 (statusCode r))) as [[b r0]|];
    by destruct sr, data.
Qed.

Lemma end_wrapper_flushed t sr r :
  is_Some (flushed r) →
  end_wrapper t sr r
  = Some (Gated t sr {| statusCode := statusCode r; headers := headers r;
                        flushed := flushed r; body := body r;
                        finished := true |}).
Proof.
  intros Hf. unfold end_wrapper, native_end, implicitHeader.
  cbn [response]. rewrite (headersSent_true r Hf). simpl.
  by rewrite app_nil_r.
Qed.

Lemma end_wrapper_unflushed t sr r :
  flushed r = None →
  end_wrapper t sr r
  = writeHead_wrapper t r (Args1 (statusCode r))
      ≫= λ p, Some (Gated t p.1
                      {| statusCode := statusCode p.2;
                         headers := headers p.2; flushed := flushed p.2;
                         body := body p.2; finished := true |}).
Proof.
  intros Hf. unfold end_wrapper, native_end, implicitHeader.
  cbn [response writeHead]. rewrite (headersSent_false r Hf).
  destruct (writeHead_wrapper t r (Args1 (statusCode r))) as [[b r0]|];
    simpl; [|done].
  by rewrite app_nil_r.
Qed.

Lemma writes_flushed t sr r ds :
  is_Some (flushed r) →
  ∃ r', run bufferToString (Gated t sr r) (Write <$> ds)
        = Some (Gated t sr r')
        ∧ body r' = body r ++ (chunkSent bufferToString t sr <$> ds)
        ∧ headers r' = headers r
        ∧ flushed r' = flushed r
        ∧ finished r' = finished r
        ∧ statusCode r' = statusCode r.
Proof.
  revert r. induction ds as [|d ds IH]; intros r Hf.
  - exists r. simpl. by rewrite app_nil_r.
  - destruct (IH (pushed r (chunkSent bufferToString t sr d)) Hf)
      as (r' & Hrun & Hb & Hh & Hfl & Hfin & Hst).
    exists r'. rewrite fmap_cons. cbn [run invoke].
    rewrite write_wrapper_flushed by done. cbn [mbind option_bind].
    split; [exact Hrun|]. rewrite Hb, Hh, Hfl, Hfin, Hst.
    cbn [body]. by rewrite <- app_assoc.
Qed.

(** X6.  Once the headers were sent, a sequence of [write] calls on the
    wrapped response leaves the decision, the headers and what was flushed
    as they were, does not end the response, and appends to the body one
    chunk per call, in order, each the forward substitution of its text
    under "rewrite" and the chunk itself otherwise. *)
Theorem writes_keep_order (t : DomainTable) (sr : bool) (r : ServerResponse)
    (ds : list chunk) :
  is_Some (flushed r) →
  ∃ r', run bufferToString (Gated t sr r) (Write <$> ds)
        = Some (Gated t sr r')
        ∧ body r' = body r ++ (chunkSent bufferToString t sr <$> ds)
        ∧ headers r' = headers r
        ∧ flushed r' = flushed r
        ∧ finished r' = finished r
        ∧ statusCode r' = statusCode r.
Proof. apply writes_flushed. Qed.

(** C10 (as the code has it).  On a wrapped response whose [writeHead] is
    never called, the first [write] has the headers sent, and that goes
    through the [writeHead] wrapper: the decision [sr] is taken there from
    the content type set on the response, [content-length] is removed if it
    is "rewrite", and a string [access-control-allow-origin] is rewritten.
    The first chunk goes out as it came, the decision having been read
    before; every later chunk goes out as decided.  When nothing is written
    the same happens at [end]. *)
Theorem decision_at_first_write (t : DomainTable) (r : ServerResponse)
    (d : chunk) (ds : list chunk) (sr : bool) :
  flushed r = None →
  decideRewrite r None = Some sr →
  ∃ r0,
    writeHead_wrapper t r (Args1 (statusCode r)) = Some (sr, r0)
    ∧ (∃ r', run bufferToString (Gated t false r) (Write d :: (Write <$> ds))
             = Some (Gated t sr r')
             ∧ flushed r' = flushed r0
             ∧ body r'
               = body r ++ d :: (chunkSent bufferToString t sr <$> ds)
             ∧ finished r' = finished r)
    ∧ (∀ data, ∃ r', run bufferToString (Gated t false r) [End data]
                     = Some (Gated t sr r')
                     ∧ flushed r' = flushed r0
                     ∧ body r' = body r
                     ∧ finished r' = true)
    ∧ statusSent r0 = statusCode r
    ∧ sent r0 "content-length"
      = (if sr then None else headers r !! "content-length")
    ∧ sent r0 "access-control-allow-origin"
      = match headers r !! "access-control-allow-origin" with
        | Some (HStr v) => Some (HStr (if v is "" then "" else forward t v))
        | other => other
        end
    ∧ ∀ k, k ≠ "content-length" → k ≠ "access-control-allow-origin" →
           sent r0 k = headers r !! k.
Proof.
  intros Hf Hd.
  destruct (writeHead_wrapper_returns t r (Args1 (statusCode r)) sr Hf Hd)
    as [r0 E0]; [done|].
  exists r0. split; [done|].
  destruct (writeHead_wrapper_sent _ _ _ _ _ E0)
    as (r2 & hs2 & E3 & Hk2 & Ha2 & Hb2 & Hfin2 & -> & Hsent).
  assert (hs2 = None) as -> by (destruct sr; simpl in E3; by injection E3).
  set (r0 := storeHeader r2 (with_headers (Args1 (statusCode r)) None)) in *.
  split; [|split].
  - destruct (writes_flushed t sr (pushed r0 d) ds) as
      (r' & Hrun & Hb & Hh & Hfl & Hfin & Hst); [by eexists|].
    exists r'. cbn [run invoke].
    rewrite write_wrapper_unflushed, E0 by done. cbn [mbind option_bind].
    split; [exact Hrun|]. split; [done|]. rewrite Hb, Hfin.
    cbn [body finished r0 storeHeader]. rewrite Hb2, Hfin2.
    by rewrite <- app_assoc.
  - intros data. eexists. cbn [run invoke].
    rewrite end_wrapper_unflushed, E0 by done. cbn [mbind option_bind].
    split; [reflexivity|]. done.
  - split; [done|]. rewrite !Hsent. cbn [default laidOver foldl].
    split; [|split; [done|]].
    + rewrite Hk2 by done. destruct sr; [|done]. apply lookup_delete_eq.
    + intros k H1 H2. rewrite Hsent. cbn [default laidOver foldl].
      rewrite Hk2 by done. destruct sr; [|done]. by rewrite lookup_delete_ne.
Qed.

(** X4.  With at least one hostname pair registered and no empty hostname, a
    text chunk in which no target hostname occurs is written as it came,
    whether the decision is to rewrite or not; [write] returns whenever the
    headers were sent or can be. *)
Theorem chunk_without_hostname_unchanged (t : DomainTable) (sr : bool)
    (r : ServerResponse) (text : string) :
  populated t →
  occurrences (escapedUrls t) text = 0%nat →
  is_Some (flushed r) ∨ is_Some (decideRewrite r None) →
  ∃ s', write_wrapper bufferToString t sr r (Text text) = Some s'
        ∧ body (response s') = body r ++ [Text text].
Proof.
  intros Hp H Hok.
  assert (chunkSent bufferToString t sr (Text text) = Text text) as Hc.
  { unfold chunkSent. destruct sr; [|done]. by rewrite forward_untouched. }
  destruct (flushed r) as [hd|] eqn:Hf.
  - rewrite write_wrapper_flushed, Hc by (by rewrite Hf).
    eexists. split; [reflexivity|done].
  - destruct Hok as [[? ?]|[b Hd]]; [done|].
    destruct (writeHead_wrapper_returns t r (Args1 (statusCode r)) b Hf Hd)
      as [r0 E0]; [done|].
    rewrite write_wrapper_unflushed, E0, Hc by done.
    eexists. split; [reflexivity|]. cbn [mbind option_bind response body].
    destruct (writeHead_wrapper_sent _ _ _ _ _ E0)
      as (r2 & hs2 & _ & _ & _ & Hb2 & _ & -> & _).
    cbn [snd body storeHeader]. by rewrite Hb2.
Qed.

(** X5.  Chunks are rewritten one by one: when a target hostname arrives
    split over two chunks neither of which holds a target hostname, both
    are written as they came, although the same text in one chunk has a
    match. *)
Theorem hostname_split_across_chunks (t : DomainTable) (r : ServerResponse)
    (u w : string) :
  populated t →
  (u +:+ w) ∈ escapedUrls t →
  occurrences (escapedUrls t) u = 0%nat →
  occurrences (escapedUrls t) w = 0%nat →
  is_Some (flushed r) →
  ∃ r', run bufferToString (Gated t true r) [Write (Text u); Write (Text w)]
        = Some (Gated t true r')
        ∧ body r' = body r ++ [Text u; Text w]
        ∧ JS.matches (escapedUrls t) (u +:+ w) ≠ [].
Proof.
  intros Hp Hin Hu Hw Hf.
  destruct (writes_flushed t true r [Text u; Text w] Hf)
    as (r' & Hrun & Hb & _).
  exists r'. split; [exact Hrun|]. split.
  - rewrite Hb. simpl. by rewrite !forward_untouched.
  - destruct Hp as (Hne & _ & Hall & _). unfold JS.matches.
    rewrite alternatives_nonempty by done.
    assert (u +:+ w ≠ "") as Hnonempty.
    { rewrite Forall_forall in Hall. by apply Hall. }
    destruct (u +:+ w) as [|c s] eqn:E; [done|].
    cbn [JS.matches_from].
    destruct (JS.first_match (escapedUrls t) (String c s)) as [a|] eqn:Ea;
      [done|].
    apply first_match_None in Ea.
    pose proof (matchesAt_pos (escapedUrls t) (String c s) (String c s) Hin
                  (startsWith_refl (String c s))) as Hpos.
    lia.
Qed.

End Streams.

Lemma writes_keep_order_witness :
  let r := {| statusCode := 200; headers := ∅;
              flushed := Some {| code := 200; reason := None; fields := ∅ |};
              body := []; finished := false |} in
  ∃ r', run String.string_of_list_byte (Gated scenarioTable true r)
          (Write <$> [Text "localhost:3000/a"; Text "localhost:3000/b"])
        = Some (Gated scenarioTable true r')
        ∧ body r' = [Text "app.example/a"; Text "app.example/b"].
Proof.
  intros r.
  destruct (writes_keep_order String.string_of_list_byte scenarioTable true r
              [Text "localhost:3000/a"; Text "localhost:3000/b"])
    as (r' & Hrun & Hb & _); [by eexists|].
  exists r'. split; [exact Hrun|exact Hb].
Defined.

Lemma decision_at_first_write_witness :
  let r := {| statusCode := 200;
              headers := {[ "content-type" := HStr "text/css";
                            "content-length" := HNum 54 ]};
              flushed := None; body := []; finished := false |} in
  ∃ r', run String.string_of_list_byte (Gated scenarioTable false r)
          [Write (Text "@import 'localhost:3000/a';");
           Write (Text "@import 'localhost:3000/b';")]
        = Some (Gated scenarioTable true r')
        ∧ body r' = [Text "@import 'localhost:3000/a';";
                     Text "@import 'app.example/b';"]
        ∧ sent r' "content-length" = None.
Proof.
  intros r.
  destruct (decision_at_first_write String.string_of_list_byte scenarioTable r
              (Text "@import 'localhost:3000/a';")
              [Text "@import 'localhost:3000/b';"] true eq_refl eq_refl)
    as (r0 & _ & (r' & Hrun & Hfl & Hb & _) & _ & _ & Hcl & _).
  exists r'. split; [exact Hrun|]. split; [exact Hb|].
  unfold sent in *. by rewrite Hfl.
Defined.

(** C10 (where the description fails).  With no call of [writeHead], an
    HTML response whose fields are set and whose body is written in two
    chunks is sent without its [content-length], with its
    [access-control-allow-origin] rewritten and with its second chunk
    rewritten; the decision ends as "rewrite". *)
Theorem implicit_header_takes_decision :
  (λ s, (match s with Gated _ sr _ => sr | Native _ => false end,
         sent (response s) "content-length",
         sent (response s) "access-control-allow-origin",
         body (response s)))
    <$> run String.string_of_list_byte
          (Gated scenarioTable false freshResponse) pageWithoutWriteHead
  = Some (true, None, Some (HStr "http://app.example"),
          [Text "<a href=http://localhost:3000/a>";
           Text "<a href=http://app.example/b>"])
  ∧ (λ s, (sent (response s) "content-length",
           sent (response s) "access-control-allow-origin",
           body (response s)))
      <$> run String.string_of_list_byte (Native freshResponse)
            pageWithoutWriteHead
    = Some (Some (HNum 64), Some (HStr "http://localhost:3000"),
            [Text "<a href=http://localhost:3000/a>";
             Text "<a href=http://localhost:3000/b>"]).
Proof. split; reflexivity. Qed.

Lemma chunk_without_hostname_unchanged_witness :
  ∃ s', write_wrapper String.string_of_list_byte scenarioTable true
          freshResponse (Text "<p>hello</p>") = Some s'
        ∧ body (response s') = [Text "<p>hello</p>"].
Proof.
  apply (chunk_without_hostname_unchanged String.string_of_list_byte
           scenarioTable true freshResponse "<p>hello</p>").
  - repeat split; try discriminate; repeat constructor; discriminate.
  - reflexivity.
  - right. by eexists.
Defined.

Lemma hostname_split_across_chunks_witness :
  let r := {| statusCode := 200; headers := ∅;
              flushed := Some {| code := 200; reason := None; fields := ∅ |};
              body := []; finished := false |} in
  ∃ r', run String.string_of_list_byte (Gated scenarioTable true r)
          [Write (Text "local"); Write (Text "host:3000")]
        = Some (Gated scenarioTable true r')
        ∧ body r' = [Text "local"; Text "host:3000"]
        ∧ JS.matches (escapedUrls scenarioTable) "localhost:3000" ≠ [].
Proof.
  intros r.
  apply (hostname_split_across_chunks String.string_of_list_byte
           scenarioTable r "local" "host:3000").
  - repeat split; try discriminate; repeat constructor; discriminate.
  - left.
  - reflexivity.
  - reflexivity.
  - by eexists.
Defined.

(** ** Where the code departs from the description *)

Lemma build_without_public_host (getDomain : string → string) ds :
  Forall (λ d, truthy_string (publicUrl d) = false) ds →
  build getDomain ds = emptyTable.
Proof.
  intros H. unfold build. generalize emptyTable as t.
  induction H as [|x xs Hx _ IH]; intros t; simpl; [done|].
  rewrite <- (IH t) at 2. f_equal. unfold register.
  destruct (publicUrl x) as [u|]; [|done]. by rewrite Hx.
Qed.

(** C1 (the code at the failing input).  With a domain configuration that
    names no public URL the tables are empty, yet the response is wrapped:
    the pattern compiled from no alternative matches the empty string at
    every position, the dictionary has no entry for it, and an HTML body
    [ab] is sent as [undefinedaundefinedbundefined], its [content-length]
    removed. *)
Theorem gate_installed_without_public_host :
  tables hostnameOf unpublishedConfig = Some emptyTable
  ∧ requestListener noKey (tables hostnameOf unpublishedConfig)
      plainRequest freshResponse
    = ProxyWeb plainRequest (Gated emptyTable false freshResponse)
  ∧ (body ∘ response) <$>
      run String.string_of_list_byte (Gated emptyTable false freshResponse)
        htmlResponse
    = Some [Text "undefinedaundefinedbundefined"]
  ∧ (λ s, sent (response s) "content-length") <$>
      run String.string_of_list_byte (Gated emptyTable false freshResponse)
        htmlResponse
    = Some None
  ∧ (body ∘ response) <$>
      run String.string_of_list_byte (Native freshResponse) htmlResponse
    = Some [Text "ab"].
Proof. repeat split; reflexivity. Qed.

(** C8 (the code at the failing input).  A final chunk handed to [end] on a
    wrapped response is not sent: the body holds the rewritten first chunk
    only, where the unwrapped response holds both chunks. *)
Theorem end_discards_final_chunk :
  (body ∘ response) <$>
    run String.string_of_list_byte (Gated scenarioTable false freshResponse)
      pageInTwoParts
  = Some [Text "<a href=http://app.example/>"]
  ∧ (body ∘ response) <$>
      run String.string_of_list_byte (Native freshResponse) pageInTwoParts
    = Some [Text "<a href=http://localhost:3000/>"; Text "</a>"].
Proof. split; reflexivity. Qed.

(** C9 (the code at the failing input).  When the target cannot be resolved
    and the response is wrapped, status 500 is sent and the response ended,
    but the diagnostic page handed to [end] is not in the body; on an
    unwrapped response the page is sent, its message reworded. *)
Theorem error_page_discarded :
  observed <$> onError String.string_of_list_byte plainTemplate notFound
                 (Gated scenarioTable false freshResponse)
  = Some (500, [], true)
  ∧ observed <$> onError String.string_of_list_byte plainTemplate notFound
                   (Native freshResponse)
    = Some (500,
            [Text "Can't find host <b>app.local</b>Error: getaddrinfo ENOTFOUND app.local"],
            true).
Proof. split; reflexivity. Qed.


(** ** Which requests are answered locally *)

(** On a response that is not wrapped, [write] and [end] do not throw. *)
Lemma native_write_Native r data :
  ∃ r', native_write (Native r) data = Some (Native r').
Proof.
  unfold native_write, implicitHeader. cbn [response writeHead].
  unfold native_writeHead. destruct (headersSent r); simpl; by eexists.
Qed.

Lemma native_end_Native r data :
  ∃ r', native_end (Native r) data = Some (Native r').
Proof.
  unfold native_end, implicitHeader. cbn [response writeHead].
  unfold native_writeHead. destruct (headersSent r); simpl; by eexists.
Qed.

Lemma answer_returns res data :
  ∃ s, native_write (Native res) data ≫= (λ s, native_end s None) = Some s.
Proof.
  destruct (native_write_Native res data) as [r1 ->].
  destruct (native_end_Native r1 None) as [r2 E]. by exists (Native r2).
Qed.

(** X9.  A request is answered by the listener itself exactly when a
    (non-empty) key identifier is configured and its path begins with the
    challenge prefix; every other request, one without a path included, is
    handed to the transport with the response as it was, wrapped if and only
    if there are tables.  The answer does not depend on the tables. *)
Theorem answered_locally_iff (options : ReverseProxyOptions)
    (tbl : option DomainTable) (req : IncomingMessage)
    (res : ServerResponse) :
  ((∃ r, requestListener options tbl req res = Responded r) ↔
     truthy_string (publicKeyId options) = true
     ∧ ∃ u, url req = Some u ∧ JS.startsWith acmeChallengePath u = true)
  ∧ ((∃ r, requestListener options tbl req res = Responded r) ∨
     requestListener options tbl req res
     = ProxyWeb req match tbl with
                    | Some t => Gated t false res
                    | None => Native res
                    end)
  ∧ (∀ r, requestListener options tbl req res = Responded r →
          requestListener options None req res = Responded r).
Proof.
  unfold requestListener.
  destruct (truthy_string (publicKeyId options)) eqn:Ek.
  - destruct (url req) as [u|] eqn:Eu.
    + destruct (truthy_string (Some u) && JS.startsWith acmeChallengePath u)
        eqn:Es.
      * apply andb_true_iff in Es as [_ Es].
        match goal with
        | |- context [native_write (Native res) ?x] =>
            destruct (answer_returns res x) as [s ->]
        end.
        split; [split; [by eauto|by eexists]|].
        split; [left; by eexists|done].
      * split; [split; [by intros [? ?]|]|split; [by right|done]].
        intros [_ (u' & [= <-] & Hs)]. rewrite Hs, andb_true_r in Es.
        by destruct u.
    + split; [split; [by intros [? ?]|by intros [_ (? & ? & _)]]|].
      split; [by right|done].
  - split; [split; [by intros [? ?]|by intros [? _]]|].
    split; [by right|done].
Qed.

Lemma answered_locally_iff_witness :
  requestListener {| publicKeyId := Some "kid42" |} (Some scenarioTable)
    {| url := Some "/app/.well-known/acme-challenge/abc"; host := None;
       origin := None |} freshResponse
  = ProxyWeb {| url := Some "/app/.well-known/acme-challenge/abc";
                host := None; origin := None |}
      (Gated scenarioTable false freshResponse).
Proof.
  destruct (answered_locally_iff {| publicKeyId := Some "kid42" |}
              (Some scenarioTable)
              {| url := Some "/app/.well-known/acme-challenge/abc";
                 host := None; origin := None |} freshResponse)
    as ([Hiff _] & [Hloc|Hfwd] & _).
  - destruct (Hiff Hloc) as [_ (u & [= <-] & Hs)]. discriminate Hs.
  - exact Hfwd.
Defined.

(** ** The error handler *)

(** X10.  A message that begins with [getaddrinfo ENOTFOUND] is reworded to
    name what follows the prefix and one further character, whatever that
    character is, in bold and as it stands; any other message is shown as it
    is. *)
Theorem errorMessage_reworded (c : ascii) (rest : string)
    (st : option string) (err : Error) :
  errorMessage {| message := "getaddrinfo ENOTFOUND" +:+ String c rest;
                  stack := st |}
  = "Can't find host <b>" +:+ rest +:+ "</b>"
  ∧ errorMessage {| message := "getaddrinfo ENOTFOUND"; stack := st |}
    = "Can't find host <b></b>"
  ∧ (JS.startsWith "getaddrinfo ENOTFOUND" (message err) = false →
     errorMessage err = message err).
Proof.
  split; [reflexivity|]. split; [reflexivity|].
  intros H. unfold errorMessage. by rewrite H.
Qed.

Lemma errorMessage_reworded_witness :
  errorMessage refused = "connect ECONNREFUSED 127.0.0.1:3000".
Proof.
  apply (errorMessage_reworded "x" "" None refused). reflexivity.
Defined.

Section ErrorHandler.

Variable bufferToString : Buffer → string.
Variable renderTemplate : string → option string → string.

(** X11.  On a response that is not wrapped and whose headers were not sent
    yet, the error handler does not throw: status 500 is sent, the rendered
    page is appended to the body as one chunk and the response is ended.
    The field it sends is named [ContentType]; no [content-type] is declared
    beyond what the response already had, and other fields set before are
    sent as they are.  Once the headers were sent the handler throws. *)
Theorem error_page_on_plain_response (err : Error) (r : ServerResponse) :
  (flushed r = None →
   ∃ r', onError bufferToString renderTemplate err (Native r)
         = Some (Native r')
         ∧ statusSent r' = 500
         ∧ body r'
           = body r ++ [Text (renderTemplate (errorMessage err) (stack err))]
         ∧ finished r' = true
         ∧ sent r' "contenttype" = Some (HStr "text/html; charset=utf-8")
         ∧ ∀ k, k ≠ "contenttype" → sent r' k = headers r !! k)
  ∧ (is_Some (flushed r) →
     onError bufferToString renderTemplate err (Native r) = None).
Proof.
  split.
  - intros Hf. unfold onError. cbn [run invoke writeHead].
    unfold native_writeHead. rewrite (headersSent_false r Hf).
    cbn [fmap option_fmap option_map mbind option_bind].
    unfold native_end, implicitHeader. cbn [response storeHeader flushed
      headersSent mbind option_bind withResponse].
    eexists. split; [reflexivity|]. do 3 (split; [reflexivity|]).
    assert (∀ k, sent (storeHeader r (Args2 500
                   (inr [("ContentType", HStr "text/html; charset=utf-8")]))) k
                 = <["contenttype" := HStr "text/html; charset=utf-8"]>
                     (headers r) !! k) as Hsent by done.
    split.
    + etrans; [apply Hsent|]. apply lookup_insert_eq.
    + intros k Hk. etrans; [apply Hsent|]. by apply lookup_insert_ne.
  - intros Hf. unfold onError. cbn [run invoke writeHead].
    unfold native_writeHead. by rewrite (headersSent_true r Hf).
Qed.

(** X12.  On a wrapped response whose headers were not sent yet and whose
    content type, if any, is not a number, the error handler does not throw
    either: status 500 is sent and the response is ended, but the body is
    what it was, for every error, every table and every earlier decision.
    Once the headers were sent the handler throws. *)
Theorem error_page_on_wrapped_response (err : Error) (t : DomainTable)
    (sr : bool) (r : ServerResponse) :
  (flushed r = None →
   (∀ n, getHeader r "content-type" ≠ Some (HNum n)) →
   ∃ sr' r', onError bufferToString renderTemplate err (Gated t sr r)
             = Some (Gated t sr' r')
             ∧ statusSent r' = 500
             ∧ body r' = body r
             ∧ finished r' = true)
  ∧ (is_Some (flushed r) →
     onError bufferToString renderTemplate err (Gated t sr r) = None).
Proof.
  set (args := Args2 500
                 (inr [("ContentType", HStr "text/html; charset=utf-8")])).
  split.
  - intros Hf Hct.
    destruct (decideRewrite r (headers_of args)) as [b|] eqn:Hd.
    + destruct (writeHead_wrapper_returns t r args b Hf Hd) as [r1 E];
        [by intros h v [= <-]|].
      destruct (writeHead_wrapper_sent _ _ _ _ _ E)
        as (r2 & hs2 & _ & _ & _ & Hb2 & _ & Hr1 & _).
      assert (is_Some (flushed r1)) as Hf1 by (rewrite Hr1; by eexists).
      eexists b, _. unfold onError. fold args. cbn [run invoke writeHead].
      rewrite E. cbn [mbind option_bind run invoke].
      rewrite end_wrapper_flushed by done. cbn [mbind option_bind].
      split; [reflexivity|].
      unfold statusSent. cbn [flushed body finished]. rewrite Hr1.
      cbn [storeHeader flushed code body].
      destruct (status_of_with_headers args hs2) as [-> _].
      by repeat split.
    + apply decideRewrite_None in Hd as [n [_ [Hr|(_ & h & [= <-] & Hh)]]];
        [by destruct (Hct n)|done].
  - intros Hf. unfold onError. fold args. cbn [run invoke writeHead].
    by rewrite writeHead_wrapper_flushed.
Qed.

End ErrorHandler.

Lemma error_page_on_plain_response_witness :
  ∃ r', onError String.string_of_list_byte plainTemplate refused
          (Native freshResponse) = Some (Native r')
        ∧ statusSent r' = 500
        ∧ body r' = [Text "connect ECONNREFUSED 127.0.0.1:3000Error: connect ECONNREFUSED 127.0.0.1:3000"]
        ∧ finished r' = true
        ∧ sent r' "contenttype" = Some (HStr "text/html; charset=utf-8")
        ∧ ∀ k, k ≠ "contenttype" → sent r' k = None.
Proof.
  apply (proj1 (error_page_on_plain_response String.string_of_list_byte
                  plainTemplate refused freshResponse)).
  reflexivity.
Defined.

Lemma error_page_on_wrapped_response_witness :
  ∃ sr' r', onError String.string_of_list_byte plainTemplate refused
              (Gated scenarioTable false freshResponse)
            = Some (Gated scenarioTable sr' r')
            ∧ statusSent r' = 500
            ∧ body r' = []
            ∧ finished r' = true.
Proof.
  apply (proj1 (error_page_on_wrapped_response String.string_of_list_byte
                  plainTemplate refused scenarioTable false freshResponse)).
  - reflexivity.
  - intros n. discriminate.
Defined.

(** ** Upgrade requests *)

(** X13.  With at least one hostname pair registered and no empty hostname,
    an upgrade request in whose Host and Origin headers no public hostname
    occurs is forwarded exactly as it came. *)
Theorem upgrade_without_public_host_unchanged (t : DomainTable)
    (req : IncomingMessage) :
  populated t →
  (∀ h, host req = Some h → occurrences (reverseEcapedUrls t) h = 0%nat) →
  (∀ o, origin req = Some (Scalar o) →
        occurrences (reverseEcapedUrls t) o = 0%nat) →
  (∀ l, origin req = Some (Many l) →
        Forall (λ o, occurrences (reverseEcapedUrls t) o = 0%nat) l) →
  onUpgrade (Some t) req = req.
Proof.
  intros Hp Hh Ho Hl. destruct req as [u h o]. unfold onUpgrade.
  cbn [url host origin rewriteInbound] in *. f_equal.
  - destruct h as [h|]; [|done].
    destruct (truthy_string (Some h)); [|done]. simpl.
    by rewrite backward_untouched by auto.
  - destruct o as [[o|l]|]; [| |done].
    + destruct (truthy_string (Some o)); [|done].
      by rewrite backward_untouched by auto.
    + do 2 f_equal. specialize (Hl l eq_refl). clear Ho.
      induction Hl as [|x l Hx _ IH]; [done|].
      rewrite fmap_cons, IH. f_equal. by apply backward_untouched.
Qed.

Lemma upgrade_without_public_host_unchanged_witness :
  onUpgrade (Some scenarioTable)
    {| url := Some "/ws"; host := Some "other.example";
       origin := Some (Many ["http://other.example"; "null"]) |}
  = {| url := Some "/ws"; host := Some "other.example";
       origin := Some (Many ["http://other.example"; "null"]) |}.
Proof.
  apply (upgrade_without_public_host_unchanged scenarioTable
           {| url := Some "/ws"; host := Some "other.example";
              origin := Some (Many ["http://other.example"; "null"]) |}).
  - repeat split; try discriminate; repeat constructor; discriminate.
  - intros h [= <-]. reflexivity.
  - intros o. discriminate.
  - intros l [= <-]. repeat constructor.
Defined.

(** ** A domain list that names no public URL *)

Lemma replace_empty_undefined f s :
  f "" = None → JS.replace [] f s = undefinedAround s.
Proof.
  intros Hf. unfold JS.replace. simpl.
  induction s as [|c s IH]; simpl; rewrite Hf; [done|].
  simpl. by rewrite IH.
Qed.

(** X14.  When the domain list names no public URL, both substitutions put
    the text [undefined] before every character of their input and at its
    end; so does the upgrade handler with a Host header. *)
Theorem no_public_host_inserts_undefined (getDomain : string → string)
    (ds : list DomainConfig) :
  Forall (λ d, truthy_string (publicUrl d) = false) ds →
  (∀ s, forward (build getDomain ds) s = undefinedAround s)
  ∧ (∀ s, backward (build getDomain ds) s = undefinedAround s)
  ∧ (∀ req h, host req = Some h → h ≠ "" →
       host (onUpgrade (Some (build getDomain ds)) req)
       = Some (undefinedAround h)).
Proof.
  intros H. rewrite (build_without_public_host getDomain ds H).
  assert (∀ s, backward emptyTable s = undefinedAround s) as Hb.
  { intros s. by apply replace_empty_undefined. }
  split; [intros s; by apply replace_empty_undefined|]. split; [exact Hb|].
  intros req h Hh Hne. unfold onUpgrade. cbn [host rewriteInbound].
  rewrite Hh. destruct h; [done|]. simpl. by rewrite Hb.
Qed.

Lemma no_public_host_inserts_undefined_witness :
  host (onUpgrade (tables hostnameOf unpublishedConfig)
          {| url := Some "/ws"; host := Some "ab"; origin := None |})
  = Some "undefinedaundefinedbundefined".
Proof.
  destruct (no_public_host_inserts_undefined hostnameOf
              [ {| targetUrl := "http://localhost:3000"; publicUrl := None |} ]
              ltac:(repeat constructor)) as (_ & _ & H).
  exact (H {| url := Some "/ws"; host := Some "ab"; origin := None |} "ab"
           eq_refl ltac:(discriminate)).
Defined.

(** ** Announcing the public URL *)

(** X15.  Nothing is announced for a redirect whose target is the
    [targetUrl] of no domain configuration (the comparison is on the whole
    URL), nor when the first configuration with that [targetUrl] has no
    public URL, whatever configurations follow it. *)
Theorem nothing_announced {C : Type} (config : PortlessConfig)
    (redirect : ProxyRedirectConfig) (callbacks : list C) :
  ((∀ ds d, domains config = Some ds → d ∈ ds →
            targetUrl d ≠ target redirect) →
   onListening config redirect callbacks = [])
  ∧ (∀ pre d rest,
       domains config = Some (pre ++ d :: rest) →
       Forall (λ x, targetUrl x ≠ target redirect) pre →
       targetUrl d = target redirect → publicUrl d = None →
       onListening config redirect callbacks = []).
Proof.
  unfold onListening, findDomain. split.
  - intros H. destruct (domains config) as [ds|]; [|done]. simpl.
    assert (list_find (λ d, targetUrl d = target redirect) ds = None) as ->;
      [|done].
    apply list_find_None, Forall_forall. intros d Hd. by eapply H.
  - intros pre d rest -> Hpre Hd Hpub. simpl.
    rewrite list_find_app_r by (by apply list_find_None).
    simpl. rewrite decide_True by done. simpl. by rewrite Hpub.
Qed.

Lemma nothing_announced_witness :
  onListening
    {| domains := Some [ {| targetUrl := "http://localhost:3000";
                            publicUrl := None |};
                         {| targetUrl := "http://localhost:3000";
                            publicUrl := Some "https://app.example" |} ];
       redirects := None; targetProxy := None |}
    {| port := 8080; target := "http://localhost:3000" |} ["cb"]
  = [].
Proof.
  apply (proj2 (nothing_announced _ _ _) []
           {| targetUrl := "http://localhost:3000"; publicUrl := None |}
           [ {| targetUrl := "http://localhost:3000";
                publicUrl := Some "https://app.example" |} ]);
    [reflexivity|constructor|reflexivity|reflexivity].
Defined.

(** X16.  When the first and the last domain configuration both name the
    redirect's target, every callback is told the public URL of the first,
    in registration order, while the forward dictionary holds the public
    hostname of the last. *)
Theorem announced_first_substituted_last {C : Type}
    (getDomain : string → string) (config : PortlessConfig)
    (redirect : ProxyRedirectConfig) (callbacks : list C)
    (d1 d2 : DomainConfig) (mid : list DomainConfig) (u1 u2 : string) :
  domains config = Some (d1 :: mid ++ [d2]) →
  targetUrl d1 = target redirect → targetUrl d2 = target redirect →
  publicUrl d1 = Some u1 → publicUrl d2 = Some u2 → u2 ≠ "" →
  onListening config redirect callbacks
  = (λ cb, (cb, proxyUrl (port redirect), u1)) <$> callbacks
  ∧ ∃ t, tables getDomain config = Some t
         ∧ replaceMap t !! getDomain (target redirect) = Some (getDomain u2).
Proof.
  intros Hds H1 H2 Hu1 Hu2 Hne. split.
  - unfold onListening, findDomain. rewrite Hds. simpl.
    rewrite decide_True by done. simpl. by rewrite Hu1.
  - unfold tables. rewrite Hds. eexists. split; [reflexivity|].
    rewrite app_comm_cons, build_snoc. unfold register. rewrite Hu2.
    assert (truthy_string (Some u2) = true) as -> by (by destruct u2).
    simpl. rewrite H2. apply lookup_insert_eq.
Qed.

Lemma announced_first_substituted_last_witness :
  let config :=
    {| domains := Some [ {| targetUrl := "http://localhost:3000";
                            publicUrl := Some "https://app.example" |};
                         {| targetUrl := "http://localhost:3000";
                            publicUrl := Some "https://api.example" |} ];
       redirects := None; targetProxy := None |} in
  onListening config {| port := 8080; target := "http://localhost:3000" |}
    ["first"; "second"]
  = [ ("first", "0.0.0.0:8080", "https://app.example");
      ("second", "0.0.0.0:8080", "https://app.example") ]
  ∧ ∃ t, tables hostnameOf config = Some t
         ∧ replaceMap t !! "localhost:3000" = Some "api.example".
Proof.
  apply (announced_first_substituted_last hostnameOf _
           {| port := 8080; target := "http://localhost:3000" |}
           ["first"; "second"]
           {| targetUrl := "http://localhost:3000";
              publicUrl := Some "https://app.example" |}
           {| targetUrl := "http://localhost:3000";
              publicUrl := Some "https://api.example" |}
           [] "https://app.example" "https://api.example");
    [reflexivity|reflexivity|reflexivity|reflexivity|reflexivity|discriminate].
Defined.

(** X17.  A domain configuration whose public URL is the empty string is
    announced, with that empty string, although the loop that fills the
    tables passes it over. *)
Theorem empty_public_url_announced {C : Type} (getDomain : string → string)
    (config : PortlessConfig) (redirect : ProxyRedirectConfig)
    (callbacks : list C) (d : DomainConfig) (t : DomainTable) :
  findDomain config (target redirect) = Some d →
  publicUrl d = Some "" →
  onListening config redirect callbacks
  = (λ cb, (cb, proxyUrl (port redirect), "")) <$> callbacks
  ∧ register getDomain t d = t.
Proof.
  intros Hd Hu. unfold onListening, register. by rewrite Hd, Hu.
Qed.

Lemma empty_public_url_announced_witness :
  onListening
    {| domains := Some [ {| targetUrl := "http://localhost:3000";
                            publicUrl := Some "" |} ];
       redirects := None; targetProxy := None |}
    {| port := 8080; target := "http://localhost:3000" |} ["cb"]
  = [("cb", "0.0.0.0:8080", "")]
  ∧ register hostnameOf emptyTable
      {| targetUrl := "http://localhost:3000"; publicUrl := Some "" |}
    = emptyTable.
Proof.
  apply (empty_public_url_announced hostnameOf _
           {| port := 8080; target := "http://localhost:3000" |} ["cb"]
           {| targetUrl := "http://localhost:3000"; publicUrl := Some "" |}
           emptyTable); reflexivity.
Defined.

(** ** Certificates *)

(** X18.  A certificate is asked for only when both the certificate options
    and a domain list are present; with a domain list that names no public
    URL it is still asked for, with no subject and no names. *)
Theorem certificate_request_edges (getDomain : string → string)
    (options : GreenlockOptions) (config : PortlessConfig) :
  requestedSite getDomain None config = None
  ∧ (domains config = None →
     requestedSite getDomain (Some options) config = None)
  ∧ (∀ ds, domains config = Some ds →
       Forall (λ d, truthy_string (publicUrl d) = false) ds →
       requestedSite getDomain (Some options) config
       = Some {| subject := None; altnames := [] |}).
Proof.
  unfold requestedSite. split; [done|]. split; [by intros ->|].
  intros ds -> H.
  assert (publicDomains getDomain ds = []) as ->; [|done].
  rewrite publicDomains_registered.
  destruct (tables_hold_last_registration getDomain ds) as (_ & <- & _).
  by rewrite build_without_public_host.
Qed.

Lemma certificate_request_edges_witness :
  requestedSite hostnameOf
    (Some {| packageAgent := "portless"; maintainerEmail := "dev@app.example";
             staging := None |}) unpublishedConfig
  = Some {| subject := None; altnames := [] |}.
Proof.
  apply (proj2 (proj2 (certificate_request_edges hostnameOf
                         {| packageAgent := "portless";
                            maintainerEmail := "dev@app.example";
                            staging := None |} unpublishedConfig))
           [ {| targetUrl := "http://localhost:3000"; publicUrl := None |} ]);
    [reflexivity|repeat constructor].
Defined.

Lemma readAccountData_from {A : Type} (file : nat → option A) k data :
  file k = Some data →
  ∀ fuel start, (start ≤ k)%nat →
    (∀ j, (start ≤ j < k)%nat → file j = None) →
    (k - start < fuel)%nat →
    readAccountData fuel file start = Some (data, k).
Proof.
  intros Hk. induction fuel as [|fuel IH]; intros start Hle Hnone Hfuel;
    [lia|].
  simpl. destruct (decide (start = k)) as [->|Hne]; [by rewrite Hk|].
  rewrite Hnone by lia. apply IH; [lia| |lia]. intros j Hj. apply Hnone. lia.
Qed.

(** X19.  Polling for the account file returns what the first look that
    finds the file reads, after as many waits as looks failed before it,
    provided that many looks are allowed; while the file never appears no
    number of looks yields a result. *)
Theorem readAccountData_polls {A : Type} (file : nat → option A) :
  (∀ k data fuel,
      file k = Some data → (∀ j, (j < k)%nat → file j = None) →
      (k < fuel)%nat →
      readAccountData fuel file 0 = Some (data, k))
  ∧ (∀ k fuel,
       (∀ j, (j < k)%nat → file j = None) → (fuel ≤ k)%nat →
       readAccountData fuel file 0 = None)
  ∧ ((∀ j, file j = None) → ∀ fuel, readAccountData fuel file 0 = None).
Proof.
  assert (∀ k fuel start,
            (∀ j, (j < k)%nat → file j = None) → (start + fuel ≤ k)%nat →
            readAccountData fuel file start = None) as Hnone.
  { intros k. induction fuel as [|fuel IH]; intros start Hn Hle; [done|].
    simpl. rewrite Hn by lia. apply IH; [done|lia]. }
  split; [|split].
  - intros k data fuel Hk Hn Hf.
    apply (readAccountData_from file k data Hk); [lia| |lia].
    intros j Hj. apply Hn. lia.
  - intros k fuel Hn Hle. by apply (Hnone k).
  - intros Hn fuel. apply (Hnone fuel); [by intros|lia].
Qed.

Lemma readAccountData_polls_witness :
  readAccountData 5 (λ n, if (n <? 3)%nat then None else Some "kid42") 0
  = Some ("kid42", 3%nat).
Proof.
  apply (proj1 (readAccountData_polls
                  (λ n, if (n <? 3)%nat then None else Some "kid42"))
           3%nat "kid42" 5%nat); [reflexivity| |lia].
  intros j Hj. destruct j as [|[|[|j]]]; [reflexivity..|lia].
Defined.

(** X20.  Every event makes exactly one log entry; the tunnels are
    restarted on [cert_issue] and on no other event; the entry is an error
    only for [error] and a warning only for [warning]. *)
Theorem notify_logs_once (event : string) (status : option string) :
  (∃ l args,
      notify event status
      = Consola l args ::
        (if String.eqb event "cert_issue" then [RestartNgrokTunnels] else []))
  ∧ (RestartNgrokTunnels ∈ notify event status ↔ event = "cert_issue")
  ∧ (∀ args, Consola LError args ∈ notify event status ↔
             event = "error" ∧ args = [Details])
  ∧ (∀ args, Consola LWarn args ∈ notify event status ↔
             event = "warning" ∧ args = [Details]).
Proof.
  unfold notify.
  repeat (match goal with
          | |- context [String.eqb event ?s] =>
              destruct (String.eqb_spec event s) as [->|?]
          end; simpl);
    repeat match goal with
           | |- context [bool_decide ?P] => destruct (bool_decide P)
           end;
    (split; [by eexists _, _|]);
    repeat split; intros;
    repeat match goal with
           | H : _ ∈ _ |- _ => apply elem_of_cons in H as [H|H]
           | H : _ ∈ [] |- _ => by apply elem_of_nil in H
           | H : _ ∧ _ |- _ => destruct H
           end;
    rewrite ?elem_of_cons, ?elem_of_nil;
    subst; try discriminate; try congruence; auto.
Qed.

Lemma notify_logs_once_witness :
  RestartNgrokTunnels ∈ notify "cert_issue" None
  ∧ RestartNgrokTunnels ∉ notify "certificate_status" (Some "valid").
Proof.
  split.
  - by apply (proj1 (proj2 (notify_logs_once "cert_issue" None))).
  - intros H.
    apply (proj1 (proj2 (notify_logs_once "certificate_status"
                           (Some "valid")))) in H.
    discriminate H.
Defined.

(** ** The port file of the daemon *)

(** X21.  Once the daemon listens, an existing port file is rewritten with
    the port actually bound under [port], with [liveVersion] equal to the
    file's [requestVersion] (absent when that is absent, even if the file
    had a [liveVersion]) and every other entry kept; a port file that does
    not exist is not created. *)
Theorem port_file_update {V : Type} (ofNumber : Z → V)
    (portData : gmap string V) (p : Z) :
  livePortData ofNumber portData p !! "port" = Some (ofNumber p)
  ∧ livePortData ofNumber portData p !! "liveVersion"
    = portData !! "requestVersion"
  ∧ (∀ k, k ≠ "port" → k ≠ "liveVersion" →
          livePortData ofNumber portData p !! k = portData !! k)
  ∧ portFileAfterListen ofNumber None p = None
  ∧ portFileAfterListen ofNumber (Some portData) p
    = Some (livePortData ofNumber portData p).
Proof.
  unfold livePortData. split; [apply lookup_insert_eq|].
  split; [|split; [|done]].
  - rewrite lookup_insert_ne by done.
    destruct (portData !! "requestVersion") as [v|];
      [apply lookup_insert_eq|apply lookup_delete_eq].
  - intros k Hp Hl. rewrite lookup_insert_ne by done.
    destruct (portData !! "requestVersion") as [v|];
      [by rewrite lookup_insert_ne|by rewrite lookup_delete_ne].
Qed.

Lemma port_file_update_witness :
  livePortData (λ z, z)
    {[ "requestVersion" := 7; "liveVersion" := 6; "port" := 5000; "pid" := 42 ]}
    5001 !! "pid" = Some 42.
Proof.
  destruct (port_file_update (λ z, z)
              {[ "requestVersion" := 7; "liveVersion" := 6; "port" := 5000;
                 "pid" := 42 ]} 5001) as (_ & _ & H & _).
  rewrite (H "pid") by discriminate. reflexivity.
Defined.
